(** * Lane allocation planner (app.py): model and verification

    A shallow embedding of the three core functions of [app.py]
    ([parse_power_data], [find_best_allocation],
    [run_precise_optimization_logic]) and the proofs of their contracts.

    Python integers are unbounded, so they are [Z].  A team is the tuple
    [(team_id, team_power)].  Python dictionaries keep their insertion
    order and the allocator depends on that order when it breaks ties, so a
    dictionary keyed by lane name is an association list.  Operations that can
    raise in Python ([d[k]] on an absent key, [l[i]] out of range, [max] of
    an empty iterable, [int] of a non-number) return a [result]. *)

From Stdlib Require Import String Ascii DecimalString.
From Stdlib Require Import ZArith List Bool Lia Permutation Sorted.
From Stdlib Require DecimalPos.
Import ListNotations.
Local Open Scope Z_scope.

(** * Part I: the model *)

(** ** Exceptions *)

Inductive exn : Type := KeyError | ValueError | IndexError.

Inductive result (A : Type) : Type :=
| Ok (a : A)
| Raise (e : exn).
Arguments Ok {A} a.
Arguments Raise {A} e.

Definition bind {A B : Type} (m : result A) (k : A -> result B) : result B :=
  match m with
  | Ok a => k a
  | Raise e => Raise e
  end.

Notation "x <- m ;; k" := (bind m (fun x => k))
  (at level 61, m at next level, right associativity).

(** ** Teams and lanes *)

Definition team : Type := (Z * Z)%type.

Definition team_id (t : team) : Z := fst t.
Definition team_power (t : team) : Z := snd t.

(** The three dictionary keys ['left'], ['center'], ['right']. *)
Inductive lane_name : Type := left | center | right.

Definition lane_eqb (a b : lane_name) : bool :=
  match a, b with
  | left, left | center, center | right, right => true
  | _, _ => false
  end.

(** ** Insertion-ordered dictionaries keyed by lane name *)

Section Dict.
Context {V : Type}.

Definition dict : Type := list (lane_name * V).

(** [d.get(k)] *)
Fixpoint dict_get (k : lane_name) (d : dict) : option V :=
  match d with
  | [] => None
  | (k', v) :: rest => if lane_eqb k k' then Some v else dict_get k rest
  end.

(** [d[k]] *)
Definition dict_index (k : lane_name) (d : dict) : result V :=
  match dict_get k d with
  | Some v => Ok v
  | None => Raise KeyError
  end.

(** [d.get(k, dflt)] *)
Definition dict_get_default (k : lane_name) (dflt : V) (d : dict) : V :=
  match dict_get k d with
  | Some v => v
  | None => dflt
  end.

(** [d[k] = v]: an existing key keeps its position, a new key goes last. *)
Fixpoint dict_set (k : lane_name) (v : V) (d : dict) : dict :=
  match d with
  | [] => [(k, v)]
  | (k', v') :: rest =>
      if lane_eqb k k' then (k', v) :: rest else (k', v') :: dict_set k v rest
  end.

Definition dict_values (d : dict) : list V := map snd d.

End Dict.
Arguments dict V : clear implicits.

(** A dictionary filled by a loop over [d.items()] that stores [f value]
    under the same key (also the comprehension [{k: f(v) for k, v in ...}]). *)
Definition dict_map_values {V W : Type} (f : V -> W) (d : dict V) : dict W :=
  fold_left (fun out item => dict_set (fst item) (f (snd item)) out) d [].

(** [sum(...)] of integers *)
Definition py_sum (l : list Z) : Z := fold_left Z.add l 0.

(** [l[i]] *)
Definition list_index {A : Type} (l : list A) (i : nat) : result A :=
  match nth_error l i with
  | Some x => Ok x
  | None => Raise IndexError
  end.

(** [range(start, stop, step)] for a positive step *)
Definition py_range (start stop step : nat) : list nat :=
  map (fun k => start + k * step)%nat
      (seq 0 ((stop - start + step - 1) / step)).

(** ** [sorted(l, key=..., reverse=...)]

    Python's [sorted] is stable, also with [reverse=True]: elements with equal
    keys keep their relative order.  A stable sort has one possible result, so
    a stable insertion sort models it. *)

Section PySorted.
Context {A : Type} (key : A -> Z) (reverse : bool).

(** [goes_before x y]: [x], which came earlier, stays in front of [y]. *)
Definition goes_before (x y : A) : bool :=
  if reverse then key y <=? key x else key x <=? key y.

Fixpoint sorted_insert (x : A) (l : list A) : list A :=
  match l with
  | [] => [x]
  | y :: rest =>
      if goes_before x y then x :: y :: rest else y :: sorted_insert x rest
  end.

Fixpoint py_sorted (l : list A) : list A :=
  match l with
  | [] => []
  | x :: rest => sorted_insert x (py_sorted rest)
  end.

End PySorted.

(** ** [parse_power_data]

    A Python [str] is a sequence of code points, and both [\d] and [int]
    go by the Unicode decimal-digit property, a table of the interpreter.
    The model takes the character type and that table as parameters:
    [digit_value c] is [Some d] when [c] is a decimal digit of value [d].
    The interpreter's configurable limit on the length of a numeral given to
    [int] is not modelled. *)

Section Parse.
Variable char : Type.
Variable digit_value : char -> option Z.

Definition is_digit (c : char) : bool :=
  match digit_value c with
  | Some _ => true
  | None => false
  end.

(** [re.findall(r'\d+', text)]: scan from the left, [run] is the greedy match
    in progress; it ends at the first character that is no digit. *)
Fixpoint findall_loop (run : list char) (text : list char) : list (list char) :=
  match text with
  | [] => match run with [] => [] | _ :: _ => [run] end
  | c :: rest =>
      if is_digit c then findall_loop (run ++ [c]) rest
      else match run with
           | [] => findall_loop [] rest
           | _ :: _ => run :: findall_loop [] rest
           end
  end.

Definition re_findall_digits (text : list char) : list (list char) :=
  findall_loop [] text.

(** [int(s)] on a string of digits; anything else is a [ValueError] here. *)
Definition py_int (s : list char) : result Z :=
  match s with
  | [] => Raise ValueError
  | _ :: _ =>
      fold_left
        (fun acc c =>
           n <- acc ;;
           match digit_value c with
           | Some d => Ok (10 * n + d)
           | None => Raise ValueError
           end)
        s (Ok 0)
  end.

(** The body of the loop [for i in range(0, len(numbers), 2)], with
    [power_list] threaded through. *)
Definition pair_step (numbers : list (list char))
    (acc : result (list team)) (i : nat) : result (list team) :=
  power_list <- acc ;;
  if (i + 1 <? length numbers)%nat then
    s_key <- list_index numbers i ;;
    key <- py_int s_key ;;
    s_value <- list_index numbers (i + 1) ;;
    value <- py_int s_value ;;
    Ok (power_list ++ [(key, value)])
  else Ok power_list.

Definition pair_numbers (numbers : list (list char)) : result (list team) :=
  fold_left (pair_step numbers) (py_range 0 (length numbers) 2) (Ok []).

(** The argument is [Some text] for a [str] and [None] for any other value
    (the endpoint passes [None] for an absent field). *)
Definition parse_power_data (text_data : option (list char))
  : result (list team) :=
  match text_data with
  | None => Ok []
  | Some [] => Ok []
  | Some (c :: rest) =>
      power_list <- pair_numbers (re_findall_digits (c :: rest)) ;;
      Ok (py_sorted team_power true power_list)
  end.

End Parse.

(** The digits [0] to [9] of ASCII, for concrete runs of the parser. *)
Definition ascii_digit_value (c : ascii) : option Z :=
  let n := Z.of_nat (nat_of_ascii c) in
  if (48 <=? n) && (n <=? 57) then Some (n - 48) else None.

(** ** [find_best_allocation] *)

Record lane_data : Type := {
  teams : list team;
  current_power : Z;
  target : Z
}.

(** A deficit is an integer, or [float('-inf')] for a lane that is full. *)
Inductive deficit : Type := NegInf | Fin (z : Z).

(** [a > b] between integers and [float('-inf')]. *)
Definition deficit_gtb (a b : deficit) : bool :=
  match a, b with
  | Fin x, Fin y => y <? x
  | Fin _, NegInf => true
  | NegInf, _ => false
  end.

(** [v == float('-inf')] *)
Definition is_neg_inf (v : deficit) : bool :=
  match v with NegInf => true | Fin _ => false end.

(** [max(d, key=d.get)]: the first key whose value no later one exceeds;
    [ValueError] on an empty dictionary. *)
Fixpoint max_loop (best : lane_name * deficit) (rest : dict deficit) : lane_name :=
  match rest with
  | [] => fst best
  | item :: rest' =>
      if deficit_gtb (snd item) (snd best)
      then max_loop item rest'
      else max_loop best rest'
  end.

Definition py_max_key (d : dict deficit) : result lane_name :=
  match d with
  | [] => Raise ValueError
  | item :: rest => Ok (max_loop item rest)
  end.

Definition init_lanes (targets : dict Z) : result (dict lane_data) :=
  tl <- dict_index left targets ;;
  tc <- dict_index center targets ;;
  tr <- dict_index right targets ;;
  Ok [ (left, {| teams := []; current_power := 0; target := tl |});
       (center, {| teams := []; current_power := 0; target := tc |});
       (right, {| teams := []; current_power := 0; target := tr |}) ].

Definition lane_deficit (data : lane_data) : deficit :=
  if (length (teams data) <? 20)%nat
  then Fin (target data - current_power data)
  else NegInf.

Definition add_team (t : team) (data : lane_data) : lane_data :=
  {| teams := teams data ++ [t];
     current_power := current_power data + team_power t;
     target := target data |}.

(** One iteration of the allocation loop. *)
Definition assign_team (lanes : dict lane_data) (t : team)
  : result (dict lane_data) :=
  let deficits := dict_map_values lane_deficit lanes in
  if match deficits with [] => true | _ :: _ => false end
     || forallb is_neg_inf (dict_values deficits)
  then Ok lanes
  else
    best_lane_to_assign <- py_max_key deficits ;;
    data <- dict_index best_lane_to_assign lanes ;;
    Ok (dict_set best_lane_to_assign (add_team t data) lanes).

Fixpoint assign_all (lanes : dict lane_data) (our_teams : list team)
  : result (dict lane_data) :=
  match our_teams with
  | [] => Ok lanes
  | t :: rest => lanes' <- assign_team lanes t ;; assign_all lanes' rest
  end.

Record lane_result : Type := {
  res_teams : list team;
  total_power : Z;
  res_target : Z;
  difference : Z;
  count : nat;
  is_success : bool
}.

Record allocation : Type := {
  success : bool;
  lanes_out : dict lane_result
}.

Definition lane_report (data : lane_data) : lane_result :=
  {| res_teams := py_sorted team_id false (teams data);
     total_power := current_power data;
     res_target := target data;
     difference := current_power data - target data;
     count := length (teams data);
     is_success := current_power data >=? target data |}.

(** The loop that builds [final_allocation]. *)
Definition finalize (lanes : dict lane_data) : allocation :=
  let acc :=
    fold_left
      (fun (acc : bool * dict lane_result) item =>
         let is_success := current_power (snd item) >=? target (snd item) in
         (if negb is_success then false else fst acc,
          dict_set (fst item) (lane_report (snd item)) (snd acc)))
      lanes (true, [])
  in
  {| success := fst acc; lanes_out := snd acc |}.

(** The state of [lanes] when the allocation loop has run over [our_teams]. *)
Definition lanes_after (our_teams : list team) (targets : dict Z)
  : result (dict lane_data) :=
  lanes0 <- init_lanes targets ;;
  assign_all lanes0 our_teams.

Definition find_best_allocation (our_teams : list team) (targets : dict Z)
  : result allocation :=
  lanes <- lanes_after our_teams targets ;;
  Ok (finalize lanes).

(** ** [run_precise_optimization_logic] *)

(** The two entries appended to [report['analysis']]. *)
Inductive analysis_step : Type :=
| TargetCalculation (enemy_totals our_targets : dict Z)
| TotalPowerEvaluation
    (our_total_power required_total_power power_difference : Z).

(** Texts are kept as the bytes of their UTF-8 encoding. *)
Record report : Type := {
  title : string;
  analysis : list analysis_step;
  summary : string;
  best_allocation : option allocation
}.

(** [str(n)] and [f"{n}"] *)
Definition str_int (z : Z) : string := NilZero.string_of_int (Z.to_int z).

(** Digits from the least significant on, a comma after every third one
    that has a successor; [k] digits are left in the current group. *)
Fixpoint group_thousands (k : nat) (rev_digits : list ascii) : list ascii :=
  match rev_digits with
  | [] => []
  | d :: rest =>
      match k with
      | O => ","%char :: d :: group_thousands 2 rest
      | S k' => d :: group_thousands k' rest
      end
  end.

(** [f"{n:,}"] *)
Definition format_thousands (z : Z) : string :=
  let digits := list_ascii_of_string (str_int (Z.abs z)) in
  let grouped := string_of_list_ascii (rev (group_thousands 3 (rev digits))) in
  if z <? 0 then String "-"%char grouped else grouped.

Definition report_title : string := "精確分組優化分析報告".

Definition count_mismatch_summary (n : nat) : string :=
  "錯誤：我方隊伍數量為 " ++ str_int (Z.of_nat n) ++ "，不等於60組，無法進行分組。".

Definition insufficient_power_summary (power_diff : Z) : string :=
  "警告：我方總戰力不足！距離需求還差 " ++ format_thousands (- power_diff)
    ++ " 點，無法找到滿足條件的方案。".

Definition success_summary : string :=
  "成功找到一組可行的分配方案！詳情如下。".

Definition partial_summary : string :=
  "警告：雖然總戰力充足，但此演算法未能找到滿足所有路需求的分配方案。"
    ++ String "010"%char
         "可能是強隊過於集中導致部分路戰力不足，可以嘗試調整優勢值或手動優化。".

(** The function looks [find_best_allocation] up when it reaches the call;
    the model takes the callee as [allocator], so that a theorem can say
    that a path does not reach the call. *)
Definition run_precise_optimization_logic_with
    (allocator : list team -> dict Z -> result allocation)
    (our_data_list : list team) (enemy_data : dict (list team))
    (advantages : dict Z) : result report :=
  let our_teams_sorted := our_data_list in
  let enemy_total_powers :=
    dict_map_values (fun teams => py_sum (map team_power teams)) enemy_data in
  enemy_left <- dict_index left enemy_total_powers ;;
  enemy_center <- dict_index center enemy_total_powers ;;
  enemy_right <- dict_index right enemy_total_powers ;;
  let our_target_powers :=
    [ (left, enemy_left + dict_get_default left 0 advantages);
      (center, enemy_center + dict_get_default center 0 advantages);
      (right, enemy_right + dict_get_default right 0 advantages) ] in
  let analysis1 := [TargetCalculation enemy_total_powers our_target_powers] in
  let our_total_power := py_sum (map team_power our_teams_sorted) in
  let required_total_power := py_sum (dict_values our_target_powers) in
  let power_diff := our_total_power - required_total_power in
  let analysis2 :=
    analysis1
      ++ [TotalPowerEvaluation our_total_power required_total_power power_diff] in
  if negb (length our_teams_sorted =? 60)%nat then
    Ok {| title := report_title; analysis := analysis2;
          summary := count_mismatch_summary (length our_teams_sorted);
          best_allocation := None |}
  else if power_diff <? 0 then
    Ok {| title := report_title; analysis := analysis2;
          summary := insufficient_power_summary power_diff;
          best_allocation := None |}
  else
    allocation_result <- allocator our_teams_sorted our_target_powers ;;
    Ok {| title := report_title; analysis := analysis2;
          summary := if success allocation_result
                     then success_summary else partial_summary;
          best_allocation := Some allocation_result |}.

Definition run_precise_optimization_logic
    (our_data_list : list team) (enemy_data : dict (list team))
    (advantages : dict Z) : result report :=
  run_precise_optimization_logic_with
    find_best_allocation our_data_list enemy_data advantages.

(** ** [find_best_allocation] on a store of list objects

    The functions above take the roster as a value.  The caller of the Python
    function passes a reference to a list object, and the function works on
    list objects of its own: the three ['teams'] lists, which it extends with
    [append].  To say what happens to the caller's list, the list objects are
    put in a store, addressed by position; a lane holds the address of its
    ['teams'] list.  The loop [for ... in our_teams] reads the caller's list
    through the store at every step, as a list iterator does, so it is a
    recursion on fuel. *)

Definition ref : Type := nat.
Definition store : Type := list (list team).

(** The list object at an address.  Every reference a run holds is to an
    object of the store; an address beyond it reads as the empty list. *)
Definition store_get (h : store) (r : ref) : list team := nth r h [].

(** [l.append(x)] on the object at [r] *)
Fixpoint store_append (h : store) (r : ref) (x : team) : store :=
  match h, r with
  | [], _ => []
  | l :: h', O => (l ++ [x]) :: h'
  | l :: h', S r' => l :: store_append h' r' x
  end.

(** A new list object [[]]: the store with it, and its address. *)
Definition store_new (h : store) : store * ref := (h ++ [[]], length h).

Record lane_ref : Type := {
  teams_ref : ref;
  ref_current_power : Z;
  ref_target : Z
}.

(** The lane as the store shows it. *)
Definition lane_view (h : store) (data : lane_ref) : lane_data :=
  {| teams := store_get h (teams_ref data);
     current_power := ref_current_power data;
     target := ref_target data |}.

Definition lanes_view (h : store) (lanes : dict lane_ref) : dict lane_data :=
  map (fun item => (fst item, lane_view h (snd item))) lanes.

Definition init_lanes_ref (h : store) (targets : dict Z)
  : result (store * dict lane_ref) :=
  tl <- dict_index left targets ;;
  tc <- dict_index center targets ;;
  tr <- dict_index right targets ;;
  let (h1, teams_left) := store_new h in
  let (h2, teams_center) := store_new h1 in
  let (h3, teams_right) := store_new h2 in
  Ok (h3,
      [ (left, {| teams_ref := teams_left; ref_current_power := 0;
                  ref_target := tl |});
        (center, {| teams_ref := teams_center; ref_current_power := 0;
                    ref_target := tc |});
        (right, {| teams_ref := teams_right; ref_current_power := 0;
                   ref_target := tr |}) ]).

Definition assign_team_ref (h : store) (lanes : dict lane_ref) (t : team)
  : result (store * dict lane_ref) :=
  let deficits :=
    dict_map_values (fun data => lane_deficit (lane_view h data)) lanes in
  if match deficits with [] => true | _ :: _ => false end
     || forallb is_neg_inf (dict_values deficits)
  then Ok (h, lanes)
  else
    best_lane_to_assign <- py_max_key deficits ;;
    data <- dict_index best_lane_to_assign lanes ;;
    Ok (store_append h (teams_ref data) t,
        dict_set best_lane_to_assign
          {| teams_ref := teams_ref data;
             ref_current_power := ref_current_power data + team_power t;
             ref_target := ref_target data |}
          lanes).

(** The allocation loop, [i] being the position of the list iterator.
    [None]: the fuel ran out before the iterator was exhausted. *)
Fixpoint assign_all_ref (fuel : nat) (h : store) (our_teams : ref) (i : nat)
    (lanes : dict lane_ref) : option (result (store * dict lane_ref)) :=
  match fuel with
  | O => None
  | S fuel' =>
      match nth_error (store_get h our_teams) i with
      | None => Some (Ok (h, lanes))
      | Some t =>
          match assign_team_ref h lanes t with
          | Raise e => Some (Raise e)
          | Ok (h', lanes') => assign_all_ref fuel' h' our_teams (S i) lanes'
          end
      end
  end.

(** The whole function: the store it leaves and the allocation it returns
    (whose lists are new objects, given here by value). *)
Definition find_best_allocation_ref (fuel : nat) (h : store) (our_teams : ref)
    (targets : dict Z) : option (result (store * allocation)) :=
  match init_lanes_ref h targets with
  | Raise e => Some (Raise e)
  | Ok (h0, lanes0) =>
      match assign_all_ref fuel h0 our_teams 0 lanes0 with
      | None => None
      | Some (Raise e) => Some (Raise e)
      | Some (Ok (h', lanes)) => Some (Ok (h', finalize (lanes_view h' lanes)))
      end
  end.

(** ** Specification vocabulary *)

(** The [targets] dictionary of three lanes. *)
Definition lane_targets (tl tc tr : Z) : dict Z :=
  [(left, tl); (center, tc); (right, tr)].

(** The shape [lanes] has from its literal on: three entries, in this order. *)
Definition lanes3 (dl dc dr : lane_data) : dict lane_data :=
  [(left, dl); (center, dc); (right, dr)].

(** Position of a lane in the literal that builds [lanes]. *)
Definition lane_rank (n : lane_name) : nat :=
  match n with left => 0 | center => 1 | right => 2 end.

(** A lane that can still take a team, and what it still lacks. *)
Definition room (d : lane_data) : Prop := (length (teams d) < 20)%nat.
Definition gap (d : lane_data) : Z := target d - current_power d.

(** What one iteration does to the three lanes. *)
Inductive step_case (dl dc dr : lane_data) (t : team) : dict lane_data -> Prop :=
| step_drop :
    ~ room dl -> ~ room dc -> ~ room dr ->
    step_case dl dc dr t (lanes3 dl dc dr)
| step_left :
    room dl ->
    (room dc -> gap dc <= gap dl) ->
    (room dr -> gap dr <= gap dl) ->
    step_case dl dc dr t (lanes3 (add_team t dl) dc dr)
| step_center :
    room dc ->
    (room dl -> gap dl < gap dc) ->
    (room dr -> gap dr <= gap dc) ->
    step_case dl dc dr t (lanes3 dl (add_team t dc) dr)
| step_right :
    room dr ->
    (room dl -> gap dl < gap dr) ->
    (room dc -> gap dc < gap dr) ->
    step_case dl dc dr t (lanes3 dl dc (add_team t dr)).

(** What holds of one lane throughout the loop: the capacity, the running
    sum, and the target it was created with. *)
Definition lane_ok (tgt : Z) (d : lane_data) : Prop :=
  (length (teams d) <= 20)%nat
  /\ current_power d = py_sum (map team_power (teams d))
  /\ target d = tgt.

(** The loop invariant, [pre] being the teams processed so far: the lanes
    hold exactly the first 60 of them. *)
Definition alloc_inv (tl tc tr : Z) (pre : list team) (lanes : dict lane_data)
  : Prop :=
  exists dl dc dr,
    lanes = lanes3 dl dc dr
    /\ lane_ok tl dl /\ lane_ok tc dc /\ lane_ok tr dr
    /\ Permutation (teams dl ++ teams dc ++ teams dr) (firstn 60 pre).

(** The lane the greedy rule names: it has room, no lane with room lacks
    more, and among the lanes with room that lack as much it comes first. *)
Definition greedy_choice (lanes : dict lane_data) (n : lane_name) : Prop :=
  exists d,
    dict_get n lanes = Some d /\ room d
    /\ forall m dm,
         dict_get m lanes = Some dm -> room dm ->
         gap dm <= gap d /\ (gap dm = gap d -> (lane_rank n <= lane_rank m)%nat).

(** What the report of one lane promises, [d] being the lane's final state
    and [tgt] the target the caller gave for it. *)
Definition lane_result_ok (tgt : Z) (d : lane_data) (r : lane_result) : Prop :=
  total_power r = py_sum (map team_power (res_teams r))
  /\ res_target r = tgt
  /\ (is_success r = true <-> total_power r >= res_target r)
  /\ difference r = total_power r - res_target r
  /\ StronglySorted (fun x y => team_id x <= team_id y) (res_teams r)
  /\ Permutation (res_teams r) (teams d)
  /\ (forall k, filter (fun x => team_id x =? k) (res_teams r)
                = filter (fun x => team_id x =? k) (teams d))
  /\ count r = length (res_teams r).

(** A roster of 60 teams for concrete runs: identifiers 1 to 60 with the
    powers 160 down to 101. *)
Definition sample_roster : list team :=
  map (fun i => (Z.of_nat i, 161 - Z.of_nat i)) (seq 1 60).

(** The [enemy_data] dictionary the endpoint builds, one roster a lane. *)
Definition enemy_lanes (el ec er : list team) : dict (list team) :=
  [(left, el); (center, ec); (right, er)].

(** The total of an opposing lane: the powers of its teams, added up. *)
Definition lane_total (enemy_teams : list team) : Z :=
  py_sum (map team_power enemy_teams).

(** The margin of a lane: the entry of [advantages], 0 without one. *)
Definition margin (n : lane_name) (advantages : dict Z) : Z :=
  match dict_get n advantages with
  | Some a => a
  | None => 0
  end.

(** A roster of 60 teams of total power 5000. *)
Definition weak_roster : list team :=
  map (fun i => (Z.of_nat i, if (i <=? 50)%nat then 100 else 0)) (seq 1 60).

(** What the interface description says of the parser, to compare the code
    with: the decimal integers of a text, paired consecutively. *)

Section ParseSpec.
Variable char : Type.
Variable digit_value : char -> option Z.

(** [spec_digit_runs text runs]: [runs] are the decimal integers written in
    [text], in order.  The text is cut into characters that are no digits,
    which are passed over, and runs of digits, each as long as possible: a
    run reaches to the end of the text or to a character that is no digit. *)
Inductive spec_digit_runs : list char -> list (list char) -> Prop :=
| runs_end : spec_digit_runs [] []
| runs_skip (c : char) (text : list char) (runs : list (list char)) :
    is_digit char digit_value c = false ->
    spec_digit_runs text runs ->
    spec_digit_runs (c :: text) runs
| runs_last (run : list char) :
    run <> [] ->
    forallb (is_digit char digit_value) run = true ->
    spec_digit_runs run [run]
| runs_more (run : list char) (c : char) (text : list char)
    (runs : list (list char)) :
    run <> [] ->
    forallb (is_digit char digit_value) run = true ->
    is_digit char digit_value c = false ->
    spec_digit_runs text runs ->
    spec_digit_runs (run ++ c :: text) (run :: runs).

(** The number a run of digits denotes. *)
Definition spec_number (run : list char) : Z :=
  fold_left
    (fun n c => 10 * n + match digit_value c with Some d => d | None => 0 end)
    run 0.

End ParseSpec.

(** Consecutive pairs (id, power, id, power, ...); an unpaired last number
    is discarded. *)
Fixpoint spec_pair_up (numbers : list Z) : list team :=
  match numbers with
  | key :: value :: rest => (key, value) :: spec_pair_up rest
  | _ => []
  end.

(** The three lanes in the store: their lists are the three objects that
    follow the objects [h0] the caller had. *)
Definition lane_at (r : ref) (d : lane_data) : lane_ref :=
  {| teams_ref := r;
     ref_current_power := current_power d;
     ref_target := target d |}.

Definition lanes_at (n : ref) (dl dc dr : lane_data) : dict lane_ref :=
  [ (left, lane_at n dl); (center, lane_at (n + 1)%nat dc);
    (right, lane_at (n + 2)%nat dr) ].

Definition store_with (h0 : store) (dl dc dr : lane_data) : store :=
  h0 ++ [teams dl; teams dc; teams dr].

(** The characters of a grouped number that are digits or the sign. *)
Definition not_comma (c : ascii) : bool := negb (Ascii.eqb c ",").

(** A report made without the total-power evaluation: its analysis has no
    entry with the home total, the required total and their difference. *)
Definition no_power_evaluation (r : report) : Prop :=
  forall total required diff,
    ~ In (TotalPowerEvaluation total required diff) (analysis r).

(** ** [api_upload_excel]

    The endpoint, as a function of what the framework and pandas hand to it.
    Their values are parameters: the uploaded file with its [filename], the
    sheet [pd.read_excel(file, header=None)] gives, row by row, or the
    exception it raises, the test [pd.notna] of a cell, the conversion [int]
    of a cell, which may raise, and the text [str(e)] of an exception.  The
    argument is the entry of [request.files] under ['excel_file'], [None]
    without one.  The two kinds of reply are the JSON body with
    ['power_text'], status 200, and the body with ['error'] and its status. *)

Inductive tried (E A : Type) : Type :=
| Done (a : A)
| Failed (e : E).
Arguments Done {E A} a.
Arguments Failed {E A} e.

Inductive upload_response : Type :=
| PowerText (power_text : string)
| UploadError (status : Z) (error : string).

Section UploadExcel.
Variable file : Type.
Variable cell : Type.
Variable E : Type.
Variable filename : file -> string.
Variable read_excel : file -> tried E (list (list cell)).
Variable notna : cell -> bool.
Variable cell_int : cell -> tried E Z.
Variable exn_text : E -> string.

(** The body of the loop over the rows, [processed_text_parts] threaded
    through. *)
Definition row_text_parts (processed_text_parts : list string)
    (row : list cell) : tried E (list string) :=
  match row with
  | c0 :: c1 :: _ =>
      if notna c0 && notna c1 then
        match cell_int c0 with
        | Failed e => Failed e
        | Done key =>
            match cell_int c1 with
            | Failed e => Failed e
            | Done value =>
                Done ((processed_text_parts ++ [str_int key])
                        ++ [str_int value])
            end
        end
      else Done processed_text_parts
  | _ => Done processed_text_parts
  end.

Fixpoint rows_text_parts (processed_text_parts : list string)
    (rows : list (list cell)) : tried E (list string) :=
  match rows with
  | [] => Done processed_text_parts
  | row :: rest =>
      match row_text_parts processed_text_parts row with
      | Failed e => Failed e
      | Done parts => rows_text_parts parts rest
      end
  end.

Definition processing_error (e : E) : upload_response :=
  UploadError 500 ("處理 Excel 檔案時發生錯誤: " ++ exn_text e).

Definition api_upload_excel (excel_file : option file) : upload_response :=
  match excel_file with
  | None => UploadError 400 "請求中找不到檔案部分"
  | Some file =>
      if String.eqb (filename file) EmptyString then UploadError 400 "未選擇任何檔案"
      else
        match read_excel file with
        | Failed e => processing_error e
        | Done rows =>
            match rows_text_parts [] rows with
            | Failed e => processing_error e
            | Done processed_text_parts =>
                PowerText (String.concat " " processed_text_parts)
            end
        end
  end.

(** The pairs of integers a sheet holds: a row with fewer than two cells or
    with an empty cell among its first two is passed over, every other row
    gives the integers of its first two cells. *)
Inductive sheet_pairs : list (list cell) -> list (Z * Z) -> Prop :=
| sheet_end : sheet_pairs [] []
| sheet_short (row : list cell) rows pairs :
    (length row < 2)%nat ->
    sheet_pairs rows pairs -> sheet_pairs (row :: rows) pairs
| sheet_empty_cell c0 c1 more rows pairs :
    notna c0 && notna c1 = false ->
    sheet_pairs rows pairs -> sheet_pairs ((c0 :: c1 :: more) :: rows) pairs
| sheet_pair c0 c1 more rows key value pairs :
    notna c0 && notna c1 = true ->
    cell_int c0 = Done key -> cell_int c1 = Done value ->
    sheet_pairs rows pairs ->
    sheet_pairs ((c0 :: c1 :: more) :: rows) ((key, value) :: pairs).

End UploadExcel.

(** A sheet of optional integers, for concrete runs of the upload. *)
Definition sample_sheet : list (list (option Z)) :=
  [ [Some 1; Some 300]; [Some 2]; [None; Some 7]; [Some 3; Some (-450); None];
    []; [Some 4; Some 0] ].

Definition sample_cell_int (c : option Z) : tried exn Z :=
  match c with
  | Some z => Done z
  | None => Failed ValueError
  end.

Definition sample_notna (c : option Z) : bool :=
  match c with Some _ => true | None => false end.

(** ** [api_precise_optimization]

    The endpoint from the point where [request.get_json()] has given a JSON
    object [data].  A text field of [data] is [Some s] when the key holds the
    string [s] and [None] when it is absent or holds something else; an
    advantage field is the JSON value under the key, [None] without one.
    The conversion [int] of a JSON value is a parameter: it gives an integer,
    raises [ValueError] or [TypeError], which the endpoint catches, or
    raises something else. *)

Inductive conversion : Type :=
| Converted (z : Z)
| Rejected
| Crashed.

(** The reply: the report as JSON, the error body with status 400, or an
    exception that leaves the function. *)
Inductive api_response : Type :=
| Reply (result : report)
| BadRequest (error : string)
| Uncaught.

Section PreciseOptimization.
Variable char : Type.
Variable digit_value : char -> option Z.
Variable jvalue : Type.
Variable json_int : jvalue -> conversion.

Record request_data : Type := {
  our_power : option (list char);
  enemy_left : option (list char);
  enemy_center : option (list char);
  enemy_right : option (list char);
  left_advantage : option jvalue;
  center_advantage : option jvalue;
  right_advantage : option jvalue
}.

(** [int(data.get(key, 0))] *)
Definition advantage_of (field : option jvalue) : conversion :=
  match field with
  | None => Converted 0
  | Some v => json_int v
  end.

Definition api_precise_optimization (data : request_data) : api_response :=
  match parse_power_data char digit_value (our_power data) with
  | Raise _ => Uncaught
  | Ok our_power_data =>
  match parse_power_data char digit_value (enemy_left data) with
  | Raise _ => Uncaught
  | Ok enemy_left_data =>
  match parse_power_data char digit_value (enemy_center data) with
  | Raise _ => Uncaught
  | Ok enemy_center_data =>
  match parse_power_data char digit_value (enemy_right data) with
  | Raise _ => Uncaught
  | Ok enemy_right_data =>
  let enemy_power_data :=
    [ (left, enemy_left_data); (center, enemy_center_data);
      (right, enemy_right_data) ] in
  match advantage_of (left_advantage data) with
  | Rejected => BadRequest "優勢值必須是有效的數字"
  | Crashed => Uncaught
  | Converted adv_left =>
  match advantage_of (center_advantage data) with
  | Rejected => BadRequest "優勢值必須是有效的數字"
  | Crashed => Uncaught
  | Converted adv_center =>
  match advantage_of (right_advantage data) with
  | Rejected => BadRequest "優勢值必須是有效的數字"
  | Crashed => Uncaught
  | Converted adv_right =>
  let advantages :=
    [(left, adv_left); (center, adv_center); (right, adv_right)] in
  match run_precise_optimization_logic
          our_power_data enemy_power_data advantages with
  | Raise _ => Uncaught
  | Ok result => Reply result
  end end end end end end end end.

End PreciseOptimization.

Arguments our_power {char jvalue} _.
Arguments enemy_left {char jvalue} _.
Arguments enemy_center {char jvalue} _.
Arguments enemy_right {char jvalue} _.
Arguments left_advantage {char jvalue} _.
Arguments center_advantage {char jvalue} _.
Arguments right_advantage {char jvalue} _.

(** The integers written in a text field of the request, in their order; a
    field that is absent or holds no string has none. *)
Definition field_numbers (char : Type) (digit_value : char -> option Z)
    (field : option (list char)) : list Z :=
  match field with
  | None => []
  | Some text =>
      map (spec_number char digit_value) (re_findall_digits char digit_value text)
  end.

(** The teams of a text field: its integers, paired up. *)
Definition field_teams (char : Type) (digit_value : char -> option Z)
    (field : option (list char)) : list team :=
  spec_pair_up (field_numbers char digit_value field).

(** The three advantage fields of a request. *)
Definition advantage_fields {char jvalue : Type}
    (data : request_data char jvalue) : list (option jvalue) :=
  [left_advantage data; center_advantage data; right_advantage data].

(** JSON values for concrete runs: an integer, or a string that is no
    numeral, which [int] rejects with [ValueError]. *)
Definition sample_json_int (v : option Z) : conversion :=
  match v with
  | Some z => Converted z
  | None => Rejected
  end.

(** A request with the 60 teams of [sample_roster] written out as text, three
    opposing lanes and a margin for the left lane. *)
Definition sample_request : request_data ascii (option Z) :=
  {| our_power :=
       Some (list_ascii_of_string
               (String.concat " "
                  (map str_int
                     (flat_map (fun t => [team_id t; team_power t])
                        sample_roster))));
     enemy_left := Some (list_ascii_of_string "1: 1500, 2: 400");
     enemy_center := Some (list_ascii_of_string "3 2000");
     enemy_right := Some (list_ascii_of_string "4 2100 5");
     left_advantage := Some (Some 100);
     center_advantage := None;
     right_advantage := Some (Some (-100)) |}.

(** * Part II: properties *)

Example alloc_small :
  find_best_allocation [(7, 50); (3, 40); (9, 30); (1, 20)] (lane_targets 60 60 10)
  = Ok {| success := false;
          lanes_out :=
            [ (left, {| res_teams := [(1, 20); (7, 50)]; total_power := 70;
                        res_target := 60; difference := 10; count := 2;
                        is_success := true |});
              (center, {| res_teams := [(3, 40); (9, 30)]; total_power := 70;
                          res_target := 60; difference := 10; count := 2;
                          is_success := true |});
              (right, {| res_teams := []; total_power := 0;
                         res_target := 10; difference := -10; count := 0;
                         is_success := false |}) ] |}.
Proof. reflexivity. Qed.

(** ** One iteration of the loop *)

Lemma lane_deficit_room d : room d -> lane_deficit d = Fin (gap d).
Proof.
  unfold room, lane_deficit, gap. intros H.
  apply Nat.ltb_lt in H. now rewrite H.
Qed.

Lemma lane_deficit_full d : ~ room d -> lane_deficit d = NegInf.
Proof.
  unfold room, lane_deficit. intros H.
  apply Nat.ltb_nlt in H. now rewrite H.
Qed.

Lemma room_dec d : {room d} + {~ room d}.
Proof. unfold room. apply lt_dec. Qed.

Lemma assign_team_lanes3 dl dc dr t :
  exists lanes', assign_team (lanes3 dl dc dr) t = Ok lanes'
                 /\ step_case dl dc dr t lanes'.
Proof.
  unfold assign_team, dict_map_values, lanes3, dict_values.
  cbn [fold_left fst snd dict_set lane_eqb map forallb orb].
  destruct (room_dec dl) as [Hl | Hl];
    [rewrite (lane_deficit_room _ Hl) | rewrite (lane_deficit_full _ Hl)];
  (destruct (room_dec dc) as [Hc | Hc];
    [rewrite (lane_deficit_room _ Hc) | rewrite (lane_deficit_full _ Hc)]);
  (destruct (room_dec dr) as [Hr | Hr];
    [rewrite (lane_deficit_room _ Hr) | rewrite (lane_deficit_full _ Hr)]);
  cbn [is_neg_inf andb py_max_key max_loop deficit_gtb fst snd bind];
  repeat match goal with
         | |- context [?a <? ?b] => destruct (Z.ltb_spec a b)
         end;
  cbn [max_loop deficit_gtb fst snd bind dict_index dict_get lane_eqb dict_set];
  eexists; (split; [reflexivity |]);
  first [ apply step_drop; assumption
        | apply step_left; (assumption || (intros; (lia || contradiction)))
        | apply step_center; (assumption || (intros; (lia || contradiction)))
        | apply step_right; (assumption || (intros; (lia || contradiction))) ].
Qed.

(** ** The loop invariant *)

Lemma py_sum_from l a : fold_left Z.add l a = a + py_sum l.
Proof.
  unfold py_sum. revert a.
  induction l as [| x l IH]; intros a; simpl.
  - lia.
  - rewrite IH, (IH x). lia.
Qed.

Lemma py_sum_cons x l : py_sum (x :: l) = x + py_sum l.
Proof. unfold py_sum at 1. simpl. apply py_sum_from. Qed.

Lemma py_sum_app l1 l2 : py_sum (l1 ++ l2) = py_sum l1 + py_sum l2.
Proof.
  unfold py_sum at 1. rewrite fold_left_app, py_sum_from. reflexivity.
Qed.

Lemma lane_ok_add tgt d t : lane_ok tgt d -> room d -> lane_ok tgt (add_team t d).
Proof.
  unfold lane_ok, room, add_team. intros (Hlen & Hsum & Htgt) Hroom. simpl.
  rewrite length_app, map_app, py_sum_app, Hsum. simpl.
  split; [lia |]. split; [| exact Htgt].
  unfold py_sum at 3. simpl. reflexivity.
Qed.

Lemma firstn_snoc_short {A : Type} (n : nat) (l : list A) (x : A) :
  (length l < n)%nat -> firstn n (l ++ [x]) = firstn n l ++ [x].
Proof.
  intros H. rewrite firstn_app.
  replace (n - length l)%nat with (S (n - length l - 1)) by lia.
  simpl. now rewrite firstn_nil.
Qed.

Lemma firstn_snoc_long {A : Type} (n : nat) (l : list A) (x : A) :
  (n <= length l)%nat -> firstn n (l ++ [x]) = firstn n l.
Proof.
  intros H. rewrite firstn_app.
  replace (n - length l)%nat with 0%nat by lia.
  simpl. apply app_nil_r.
Qed.

Lemma perm_lanes_length (a b c pre : list team) :
  Permutation (a ++ b ++ c) (firstn 60 pre) ->
  (length a + length b + length c = Nat.min 60 (length pre))%nat.
Proof.
  intros H. apply Permutation_length in H.
  rewrite !length_app, length_firstn in H. lia.
Qed.

Lemma perm_snoc_left {A : Type} (a b c f : list A) (t : A) :
  Permutation (a ++ b ++ c) f -> Permutation ((a ++ [t]) ++ b ++ c) (f ++ [t]).
Proof.
  intros H. rewrite <- app_assoc. simpl.
  rewrite <- Permutation_middle, <- Permutation_cons_append.
  now apply perm_skip.
Qed.

Lemma perm_snoc_center {A : Type} (a b c f : list A) (t : A) :
  Permutation (a ++ b ++ c) f -> Permutation (a ++ (b ++ [t]) ++ c) (f ++ [t]).
Proof.
  intros H. rewrite <- (app_assoc b). simpl.
  rewrite (app_assoc a b). rewrite <- Permutation_middle.
  rewrite <- app_assoc, <- Permutation_cons_append.
  now apply perm_skip.
Qed.

Lemma perm_snoc_right {A : Type} (a b c f : list A) (t : A) :
  Permutation (a ++ b ++ c) f -> Permutation (a ++ b ++ c ++ [t]) (f ++ [t]).
Proof.
  intros H. rewrite !app_assoc. apply Permutation_app_tail.
  now rewrite <- app_assoc.
Qed.

Lemma alloc_inv_intro tl tc tr pre dl dc dr :
  lane_ok tl dl -> lane_ok tc dc -> lane_ok tr dr ->
  Permutation (teams dl ++ teams dc ++ teams dr) (firstn 60 pre) ->
  alloc_inv tl tc tr pre (lanes3 dl dc dr).
Proof. intros. exists dl, dc, dr. auto. Qed.

Lemma alloc_inv_step tl tc tr pre lanes t :
  alloc_inv tl tc tr pre lanes ->
  exists lanes', assign_team lanes t = Ok lanes'
                 /\ alloc_inv tl tc tr (pre ++ [t]) lanes'.
Proof.
  intros (dl & dc & dr & -> & Hl & Hc & Hr & Hperm).
  destruct (assign_team_lanes3 dl dc dr t) as (lanes' & Hrun & Hcase).
  exists lanes'. split; [exact Hrun |].
  pose proof (perm_lanes_length _ _ _ _ Hperm) as Hlen.
  pose proof Hl as (Hl20 & _). pose proof Hc as (Hc20 & _).
  pose proof Hr as (Hr20 & _).
  destruct Hcase as [Fl Fc Fr | Rl _ _ | Rc _ _ | Rr _ _];
    apply alloc_inv_intro; try assumption;
    try (apply lane_ok_add; assumption);
    unfold room in *.
  - rewrite firstn_snoc_long by lia. exact Hperm.
  - rewrite firstn_snoc_short by lia. simpl. now apply perm_snoc_left.
  - rewrite firstn_snoc_short by lia. simpl. now apply perm_snoc_center.
  - rewrite firstn_snoc_short by lia. simpl. now apply perm_snoc_right.
Qed.

Lemma alloc_inv_run tl tc tr rest : forall pre lanes,
  alloc_inv tl tc tr pre lanes ->
  exists lanes', assign_all lanes rest = Ok lanes'
                 /\ alloc_inv tl tc tr (pre ++ rest) lanes'.
Proof.
  induction rest as [| t rest IH]; intros pre lanes Hinv; simpl.
  - exists lanes. rewrite app_nil_r. auto.
  - destruct (alloc_inv_step _ _ _ _ _ t Hinv) as (lanes1 & -> & Hinv1).
    simpl. destruct (IH _ _ Hinv1) as (lanes' & Hrun & Hinv').
    exists lanes'. split; [exact Hrun |].
    now rewrite <- app_assoc in Hinv'.
Qed.

Lemma alloc_inv_init tl tc tr :
  exists lanes0, init_lanes (lane_targets tl tc tr) = Ok lanes0
                 /\ alloc_inv tl tc tr [] lanes0.
Proof.
  eexists. split; [reflexivity |].
  apply alloc_inv_intro; unfold lane_ok; simpl; auto with arith.
Qed.

Lemma lanes_after_inv tl tc tr our_teams :
  exists lanes, lanes_after our_teams (lane_targets tl tc tr) = Ok lanes
                /\ alloc_inv tl tc tr our_teams lanes.
Proof.
  destruct (alloc_inv_init tl tc tr) as (lanes0 & Hinit & Hinv0).
  destruct (alloc_inv_run tl tc tr our_teams [] lanes0 Hinv0)
    as (lanes & Hrun & Hinv).
  exists lanes. unfold lanes_after. rewrite Hinit. simpl. auto.
Qed.

(** ** [sorted] is a stable sort *)

Section PySortedFacts.
Context {A : Type} (key : A -> Z) (reverse : bool).

Let before (x y : A) : Prop := goes_before key reverse x y = true.

Lemma goes_before_total x y :
  goes_before key reverse x y = false -> before y x /\ key x <> key y.
Proof.
  unfold before, goes_before. destruct reverse; intros H.
  - apply Z.leb_gt in H. split; [apply Z.leb_le |]; lia.
  - apply Z.leb_gt in H. split; [apply Z.leb_le |]; lia.
Qed.

Lemma goes_before_trans x y z : before x y -> before y z -> before x z.
Proof.
  unfold before, goes_before. destruct reverse; rewrite !Z.leb_le; lia.
Qed.

Lemma sorted_insert_perm x l : Permutation (sorted_insert key reverse x l) (x :: l).
Proof.
  induction l as [| y l IH]; simpl.
  - reflexivity.
  - destruct (goes_before key reverse x y).
    + reflexivity.
    + rewrite IH. apply perm_swap.
Qed.

Lemma py_sorted_perm l : Permutation (py_sorted key reverse l) l.
Proof.
  induction l as [| x l IH]; simpl.
  - constructor.
  - rewrite sorted_insert_perm. now apply perm_skip.
Qed.

Lemma py_sorted_length l : length (py_sorted key reverse l) = length l.
Proof. apply Permutation_length, py_sorted_perm. Qed.

Lemma sorted_insert_ordered x l :
  StronglySorted before l -> StronglySorted before (sorted_insert key reverse x l).
Proof.
  induction 1 as [| y l Hs IH Hy]; simpl.
  - repeat constructor.
  - destruct (goes_before key reverse x y) eqn:E.
    + constructor; [now constructor |].
      constructor; [exact E |].
      eapply Forall_impl; [| exact Hy].
      intros z Hz. now apply goes_before_trans with y.
    + destruct (goes_before_total _ _ E) as [Hyx _].
      constructor; [exact IH |].
      rewrite sorted_insert_perm. now constructor.
Qed.

Lemma py_sorted_ordered l : StronglySorted before (py_sorted key reverse l).
Proof.
  induction l as [| x l IH]; simpl.
  - constructor.
  - now apply sorted_insert_ordered.
Qed.

Lemma sorted_insert_stable k x l :
  filter (fun y => key y =? k) (sorted_insert key reverse x l)
  = filter (fun y => key y =? k) (x :: l).
Proof.
  induction l as [| y l IH]; simpl.
  - reflexivity.
  - destruct (goes_before key reverse x y) eqn:E.
    + reflexivity.
    + destruct (goes_before_total _ _ E) as [_ Hne].
      simpl. rewrite IH. simpl.
      destruct (Z.eqb_spec (key x) k), (Z.eqb_spec (key y) k);
        try reflexivity; congruence.
Qed.

Lemma py_sorted_stable k l :
  filter (fun y => key y =? k) (py_sorted key reverse l)
  = filter (fun y => key y =? k) l.
Proof.
  induction l as [| x l IH]; simpl.
  - reflexivity.
  - rewrite sorted_insert_stable. simpl. now rewrite IH.
Qed.

Lemma goes_before_antisym x y : before x y -> before y x -> key x = key y.
Proof.
  unfold before, goes_before. destruct reverse; rewrite !Z.leb_le; lia.
Qed.

Lemma filter_key_head k x l l' :
  filter (fun y => key y =? k) (x :: l) = filter (fun y => key y =? k) l' ->
  key x = k -> In x l'.
Proof.
  intros H Hk. simpl in H. apply Z.eqb_eq in Hk as Hkb. rewrite Hkb in H.
  assert (In x (filter (fun y => key y =? k) l')) as Hin
    by (rewrite <- H; now constructor).
  now apply filter_In in Hin.
Qed.

(** Two lists in order that list the elements of each key alike are equal:
    every stable sort returns what [py_sorted] returns. *)
Lemma sorted_stable_unique l1 : forall l2,
  StronglySorted before l1 -> StronglySorted before l2 ->
  (forall k, filter (fun y => key y =? k) l1 = filter (fun y => key y =? k) l2) ->
  l1 = l2.
Proof.
  induction l1 as [| x r1 IH]; intros [| y r2] S1 S2 H.
  - reflexivity.
  - specialize (H (key y)). simpl in H. rewrite Z.eqb_refl in H. discriminate.
  - specialize (H (key x)). simpl in H. rewrite Z.eqb_refl in H. discriminate.
  - apply StronglySorted_inv in S1 as [S1 F1].
    apply StronglySorted_inv in S2 as [S2 F2].
    rewrite Forall_forall in F1, F2.
    assert (key x = key y) as Hk.
    { pose proof (filter_key_head _ _ _ _ (H (key x)) eq_refl) as Hx.
      pose proof (filter_key_head _ _ _ _ (eq_sym (H (key y))) eq_refl) as Hy.
      destruct Hx as [Hx | Hx]; [now subst |].
      destruct Hy as [Hy | Hy]; [now subst |].
      apply goes_before_antisym; [now apply F1 | now apply F2]. }
    pose proof (H (key x)) as Hhead. simpl in Hhead.
    rewrite Z.eqb_refl in Hhead. rewrite <- Hk, Z.eqb_refl in Hhead.
    injection Hhead as -> Htail.
    f_equal. apply IH; try assumption.
    intros k. specialize (H k). simpl in H.
    destruct (key y =? k); [now injection H | exact H].
Qed.

Lemma py_sorted_unique l out :
  StronglySorted before out ->
  (forall k, filter (fun y => key y =? k) out = filter (fun y => key y =? k) l) ->
  out = py_sorted key reverse l.
Proof.
  intros Hs Hst. apply sorted_stable_unique.
  - exact Hs.
  - apply py_sorted_ordered.
  - intros k. now rewrite py_sorted_stable.
Qed.

End PySortedFacts.

Lemma StronglySorted_weaken {A : Type} (R S : A -> A -> Prop) l :
  (forall x y, R x y -> S x y) -> StronglySorted R l -> StronglySorted S l.
Proof.
  intros HRS. induction 1 as [| x l Hs IH Hx]; constructor.
  - exact IH.
  - eapply Forall_impl; [| exact Hx]. intros y. apply HRS.
Qed.

Lemma py_sorted_ascending {A : Type} (key : A -> Z) l :
  StronglySorted (fun x y => key x <= key y) (py_sorted key false l).
Proof.
  eapply StronglySorted_weaken; [| apply py_sorted_ordered].
  intros x y H. unfold goes_before in H. now apply Z.leb_le.
Qed.

Lemma py_sorted_descending {A : Type} (key : A -> Z) l :
  StronglySorted (fun x y => key x >= key y) (py_sorted key true l).
Proof.
  eapply StronglySorted_weaken; [| apply py_sorted_ordered].
  intros x y H. unfold goes_before in H. apply Z.leb_le in H. lia.
Qed.

(** ** The result of [find_best_allocation] *)

Lemma finalize_lanes3 dl dc dr :
  finalize (lanes3 dl dc dr)
  = {| success := is_success (lane_report dl) && is_success (lane_report dc)
                  && is_success (lane_report dr);
       lanes_out := [ (left, lane_report dl); (center, lane_report dc);
                      (right, lane_report dr) ] |}.
Proof.
  unfold finalize, lanes3. simpl.
  destruct (current_power dl >=? target dl), (current_power dc >=? target dc),
    (current_power dr >=? target dr); reflexivity.
Qed.

Lemma find_best_allocation_lanes tl tc tr our_teams :
  exists dl dc dr,
    lanes_after our_teams (lane_targets tl tc tr) = Ok (lanes3 dl dc dr)
    /\ find_best_allocation our_teams (lane_targets tl tc tr)
       = Ok (finalize (lanes3 dl dc dr))
    /\ lane_ok tl dl /\ lane_ok tc dc /\ lane_ok tr dr
    /\ Permutation (teams dl ++ teams dc ++ teams dr) (firstn 60 our_teams).
Proof.
  destruct (lanes_after_inv tl tc tr our_teams)
    as (lanes & Hrun & dl & dc & dr & -> & Hl & Hc & Hr & Hperm).
  exists dl, dc, dr. unfold find_best_allocation. rewrite Hrun. simpl. auto 6.
Qed.

Lemma py_sum_perm l l' : Permutation l l' -> py_sum l = py_sum l'.
Proof.
  induction 1 as [| x l l' _ IH | x y l | l l' l'' _ IH1 _ IH2].
  - reflexivity.
  - rewrite !py_sum_cons. lia.
  - rewrite !py_sum_cons. lia.
  - congruence.
Qed.

Lemma lane_report_ok tgt d : lane_ok tgt d -> lane_result_ok tgt d (lane_report d).
Proof.
  intros (Hlen & Hsum & Htgt). unfold lane_result_ok, lane_report. simpl.
  pose proof (py_sorted_perm team_id false (teams d)) as Hperm.
  repeat split.
  - rewrite Hsum. apply py_sum_perm, Permutation_map, Permutation_sym, Hperm.
  - exact Htgt.
  - intros H. apply Z.geb_le in H. lia.
  - intros H. apply Z.geb_le. lia.
  - apply py_sorted_ascending.
  - exact Hperm.
  - intros k. apply py_sorted_stable.
  - symmetry. apply py_sorted_length.
Qed.

Lemma assign_all_app lanes pre rest :
  assign_all lanes (pre ++ rest)
  = (mid <- assign_all lanes pre ;; assign_all mid rest).
Proof.
  revert lanes. induction pre as [| t pre IH]; intros lanes; simpl.
  - reflexivity.
  - destruct (assign_team lanes t) as [lanes1 | e]; simpl.
    + apply IH.
    + reflexivity.
Qed.

Lemma lanes_after_app pre rest targets :
  lanes_after (pre ++ rest) targets
  = (mid <- lanes_after pre targets ;; assign_all mid rest).
Proof.
  unfold lanes_after. destruct (init_lanes targets) as [lanes0 | e]; simpl.
  - apply assign_all_app.
  - reflexivity.
Qed.

Lemma greedy_choice_unique lanes n n' :
  greedy_choice lanes n -> greedy_choice lanes n' -> n' = n.
Proof.
  intros (d & Hd & Rd & Hmax) (d' & Hd' & Rd' & Hmax').
  destruct (Hmax _ _ Hd' Rd') as [Hle Hrank].
  destruct (Hmax' _ _ Hd Rd) as [Hle' Hrank'].
  assert (lane_rank n = lane_rank n') as Heq.
  { apply Nat.le_antisymm; [apply Hrank | apply Hrank']; lia. }
  destruct n, n'; simpl in Heq; congruence.
Qed.

Lemma step_case_greedy dl dc dr t lanes' :
  step_case dl dc dr t lanes' ->
  (exists n d,
      greedy_choice (lanes3 dl dc dr) n
      /\ dict_get n (lanes3 dl dc dr) = Some d
      /\ lanes' = dict_set n (add_team t d) (lanes3 dl dc dr))
  \/ (Forall (fun item => ~ room (snd item)) (lanes3 dl dc dr)
      /\ lanes' = lanes3 dl dc dr).
Proof.
  assert (forall n d,
             dict_get n (lanes3 dl dc dr) = Some d -> room d ->
             (forall m dm, dict_get m (lanes3 dl dc dr) = Some dm -> room dm ->
                           gap dm <= gap d
                           /\ (gap dm = gap d -> (lane_rank n <= lane_rank m)%nat)) ->
             greedy_choice (lanes3 dl dc dr) n) as Hintro.
  { intros n d Hd Rd Hmax. exists d. auto. }
  intros [Fl Fc Fr | Rl Hc Hr | Rc Hl Hr | Rr Hl Hc].
  - right. split; [| reflexivity]. repeat constructor; assumption.
  - left. exists left, dl. split; [| split; reflexivity].
    apply (Hintro left dl); [reflexivity | assumption |].
    intros m dm Hm Rm. destruct m; simpl in Hm; inversion Hm; subst dm; simpl;
      try specialize (Hc Rm); try specialize (Hr Rm); split; intros; lia.
  - left. exists center, dc. split; [| split; reflexivity].
    apply (Hintro center dc); [reflexivity | assumption |].
    intros m dm Hm Rm. destruct m; simpl in Hm; inversion Hm; subst dm; simpl;
      try specialize (Hl Rm); try specialize (Hr Rm); split; intros; lia.
  - left. exists right, dr. split; [| split; reflexivity].
    apply (Hintro right dr); [reflexivity | assumption |].
    intros m dm Hm Rm. destruct m; simpl in Hm; inversion Hm; subst dm; simpl;
      try specialize (Hl Rm); try specialize (Hc Rm); split; intros; lia.
Qed.

(** ** Contracts of the allocator *)

(** C1: for a roster of exactly 60 teams and any three integer targets, the
    three team lists of the returned allocation hold every team of the roster
    exactly once: their concatenation is a permutation of the roster. *)
Theorem find_best_allocation_partition (our_teams : list team) (tl tc tr : Z) :
  length our_teams = 60%nat ->
  exists ok rl rc rr,
    find_best_allocation our_teams (lane_targets tl tc tr)
    = Ok {| success := ok;
            lanes_out := [(left, rl); (center, rc); (right, rr)] |}
    /\ Permutation (res_teams rl ++ res_teams rc ++ res_teams rr) our_teams.
Proof.
  intros Hlen.
  destruct (find_best_allocation_lanes tl tc tr our_teams)
    as (dl & dc & dr & _ & Hrun & _ & _ & _ & Hperm).
  rewrite finalize_lanes3 in Hrun.
  eexists _, _, _, _. split; [exact Hrun |].
  simpl. rewrite !py_sorted_perm, Hperm.
  rewrite firstn_all2 by lia. reflexivity.
Qed.

Lemma find_best_allocation_partition_witness :
  exists ok rl rc rr,
    find_best_allocation sample_roster (lane_targets 2500 2600 2700)
    = Ok {| success := ok;
            lanes_out := [(left, rl); (center, rc); (right, rr)] |}
    /\ Permutation (res_teams rl ++ res_teams rc ++ res_teams rr) sample_roster.
Proof.
  apply (find_best_allocation_partition sample_roster 2500 2600 2700).
  reflexivity.
Defined.


(** C5: whatever the roster and the targets, no lane holds more than 20
    teams, neither after any number of iterations of the loop nor in the
    allocation that is returned. *)
Theorem lane_capacity_never_exceeded (tl tc tr : Z) (pre rest : list team) :
  exists mid final a,
    lanes_after pre (lane_targets tl tc tr) = Ok mid
    /\ assign_all mid rest = Ok final
    /\ lanes_after (pre ++ rest) (lane_targets tl tc tr) = Ok final
    /\ find_best_allocation (pre ++ rest) (lane_targets tl tc tr) = Ok a
    /\ Forall (fun item => (length (teams (snd item)) <= 20)%nat) mid
    /\ Forall (fun item => (length (teams (snd item)) <= 20)%nat) final
    /\ Forall (fun item => (length (res_teams (snd item)) <= 20)%nat
                           /\ (count (snd item) <= 20)%nat) (lanes_out a).
Proof.
  destruct (find_best_allocation_lanes tl tc tr pre)
    as (ml & mc & mr & Hmid & _ & (Hml & _) & (Hmc & _) & (Hmr & _) & _).
  destruct (find_best_allocation_lanes tl tc tr (pre ++ rest))
    as (dl & dc & dr & Hfin & Hrun & (Hl & _) & (Hc & _) & (Hr & _) & _).
  exists (lanes3 ml mc mr), (lanes3 dl dc dr), (finalize (lanes3 dl dc dr)).
  split; [exact Hmid |]. split.
  { rewrite lanes_after_app, Hmid in Hfin. exact Hfin. }
  split; [exact Hfin |]. split; [exact Hrun |].
  rewrite finalize_lanes3. simpl.
  split; [unfold lanes3; repeat apply Forall_cons; simpl; auto |].
  split; [unfold lanes3; repeat apply Forall_cons; simpl; auto |].
  repeat apply Forall_cons; simpl; rewrite ?py_sorted_length; auto.
Qed.

(** C6: in the returned allocation, each lane's [total_power] is the sum of
    the powers of its listed teams, [is_success] holds exactly when
    [total_power] reaches the lane's target, [difference] is [total_power]
    minus the target, the teams are listed by ascending identifier (equal
    identifiers in their order of assignment), and [success] holds exactly
    when the three [is_success] flags do. *)
Theorem allocation_report_consistent (tl tc tr : Z) (our_teams : list team) :
  exists dl dc dr a rl rc rr,
    lanes_after our_teams (lane_targets tl tc tr) = Ok (lanes3 dl dc dr)
    /\ find_best_allocation our_teams (lane_targets tl tc tr) = Ok a
    /\ lanes_out a = [(left, rl); (center, rc); (right, rr)]
    /\ lane_result_ok tl dl rl
    /\ lane_result_ok tc dc rc
    /\ lane_result_ok tr dr rr
    /\ (success a = true <->
        is_success rl = true /\ is_success rc = true /\ is_success rr = true).
Proof.
  destruct (find_best_allocation_lanes tl tc tr our_teams)
    as (dl & dc & dr & Hlanes & Hrun & Hl & Hc & Hr & _).
  exists dl, dc, dr, (finalize (lanes3 dl dc dr)),
    (lane_report dl), (lane_report dc), (lane_report dr).
  split; [exact Hlanes |]. split; [exact Hrun |].
  rewrite finalize_lanes3. simpl.
  split; [reflexivity |].
  split; [now apply lane_report_ok |].
  split; [now apply lane_report_ok |].
  split; [now apply lane_report_ok |].
  rewrite !andb_true_iff. tauto.
Qed.

(** ** The number in a summary *)

Example format_thousands_samples :
  format_thousands 0 = "0"%string
  /\ format_thousands 999 = "999"%string
  /\ format_thousands 1000 = "1,000"%string
  /\ format_thousands 1234567 = "1,234,567"%string
  /\ format_thousands (-12345) = "-12,345"%string.
Proof. repeat split. Qed.

Lemma string_of_uint_no_comma d :
  forallb not_comma (list_ascii_of_string (NilEmpty.string_of_uint d)) = true.
Proof. induction d; simpl; auto. Qed.

Lemma str_int_no_comma z :
  0 <= z -> forallb not_comma (list_ascii_of_string (str_int z)) = true.
Proof.
  intros Hz. unfold str_int. destruct z as [| p | p]; [reflexivity | | lia].
  cbn [Z.to_int NilZero.string_of_int]. unfold NilZero.string_of_uint.
  destruct (Pos.to_uint p); try reflexivity; apply string_of_uint_no_comma.
Qed.

Lemma group_thousands_strip l : forall k,
  forallb not_comma l = true -> filter not_comma (group_thousands k l) = l.
Proof.
  induction l as [| c l IH]; intros k H; [reflexivity |].
  simpl in H. apply andb_true_iff in H as [Hc Hl].
  destruct k; simpl; rewrite Hc, IH by assumption; reflexivity.
Qed.

(** Without its commas, [f"{n:,}"] is [str(n)]. *)
Lemma format_thousands_digits z :
  0 <= z ->
  filter not_comma (list_ascii_of_string (format_thousands z))
  = list_ascii_of_string (str_int z).
Proof.
  intros Hz. unfold format_thousands.
  destruct (Z.ltb_spec z 0) as [Hneg | _]; [lia |].
  rewrite Z.abs_eq by assumption.
  rewrite list_ascii_of_string_of_list_ascii, filter_rev.
  rewrite group_thousands_strip; [apply rev_involutive |].
  apply forallb_forall. intros c Hc. apply in_rev in Hc.
  pose proof (str_int_no_comma z Hz) as Hall.
  rewrite forallb_forall in Hall. now apply Hall.
Qed.

(** ** Contracts of [run_precise_optimization_logic] *)

Lemma run_logic_targets allocator our el ec er adv :
  run_precise_optimization_logic_with allocator our (enemy_lanes el ec er) adv
  = let targets :=
      lane_targets (lane_total el + margin left adv)
                   (lane_total ec + margin center adv)
                   (lane_total er + margin right adv) in
    let our_total_power := py_sum (map team_power our) in
    let required_total_power := py_sum (dict_values targets) in
    let power_diff := our_total_power - required_total_power in
    let steps :=
      [ TargetCalculation
          (lane_targets (lane_total el) (lane_total ec) (lane_total er)) targets;
        TotalPowerEvaluation our_total_power required_total_power power_diff ] in
    if negb (length our =? 60)%nat then
      Ok {| title := report_title; analysis := steps;
            summary := count_mismatch_summary (length our);
            best_allocation := None |}
    else if power_diff <? 0 then
      Ok {| title := report_title; analysis := steps;
            summary := insufficient_power_summary power_diff;
            best_allocation := None |}
    else
      allocation_result <- allocator our targets ;;
      Ok {| title := report_title; analysis := steps;
            summary := if success allocation_result
                       then success_summary else partial_summary;
            best_allocation := Some allocation_result |}.
Proof. reflexivity. Qed.

Lemma required_total tl tc tr :
  py_sum (dict_values (lane_targets tl tc tr)) = tl + tc + tr.
Proof. reflexivity. Qed.

Lemma count_mismatch_not_insufficient n d :
  count_mismatch_summary n <> insufficient_power_summary d.
Proof.
  unfold count_mismatch_summary, insufficient_power_summary.
  cbn [String.append]. discriminate.
Qed.

Lemma run_logic_returns our el ec er adv :
  exists r, run_precise_optimization_logic our (enemy_lanes el ec er) adv = Ok r.
Proof.
  unfold run_precise_optimization_logic. rewrite run_logic_targets. cbv zeta.
  destruct (negb (length our =? 60)%nat); [eexists; reflexivity |].
  match goal with |- context [?d <? 0] => destruct (d <? 0) end;
    [eexists; reflexivity |].
  match goal with
  | |- context [find_best_allocation our (lane_targets ?a ?b ?c)] =>
      destruct (find_best_allocation_lanes a b c our)
        as (dl & dc & dr & _ & -> & _)
  end.
  simpl. eexists; reflexivity.
Qed.

(** C3: when the home roster has not exactly 60 teams, the report carries
    the count-mismatch summary, which quotes the actual count, and no
    allocation, whatever the powers are and whatever the allocator would do.
    Its analysis has the two entries every report has: the targets, and the
    home total, the required total and their difference, which are computed
    before the count is looked at; the sign of the difference is not
    examined, so the summary is never the one of the total-power check. *)
Theorem count_mismatch_rejected
    (allocator : list team -> dict Z -> result allocation)
    (our el ec er : list team) (adv : dict Z) :
  length our <> 60%nat ->
  let tl := lane_total el + margin left adv in
  let tc := lane_total ec + margin center adv in
  let tr := lane_total er + margin right adv in
  let total := py_sum (map team_power our) in
  let r :=
    {| title := report_title;
       analysis :=
         [ TargetCalculation
             (lane_targets (lane_total el) (lane_total ec) (lane_total er))
             (lane_targets tl tc tr);
           TotalPowerEvaluation total (tl + tc + tr) (total - (tl + tc + tr)) ];
       summary := count_mismatch_summary (length our);
       best_allocation := None |} in
  run_precise_optimization_logic_with allocator our (enemy_lanes el ec er) adv
  = Ok r
  /\ run_precise_optimization_logic our (enemy_lanes el ec er) adv = Ok r
  /\ count_mismatch_summary (length our)
     = ("錯誤：我方隊伍數量為 " ++ str_int (Z.of_nat (length our))
          ++ "，不等於60組，無法進行分組。")%string
  /\ forall d, count_mismatch_summary (length our) <> insufficient_power_summary d.
Proof.
  intros Hlen tl tc tr total r. apply Nat.eqb_neq in Hlen.
  unfold run_precise_optimization_logic.
  rewrite !run_logic_targets. cbv zeta. rewrite Hlen. simpl negb. cbv iota.
  rewrite required_total.
  split; [reflexivity |]. split; [reflexivity |].
  split; [reflexivity |].
  intros d. apply count_mismatch_not_insufficient.
Qed.

Lemma count_mismatch_rejected_witness :
  exists steps,
    run_precise_optimization_logic_with
      (fun _ _ => Raise ValueError) (firstn 59 sample_roster)
      (enemy_lanes [(1, 900)] [(2, 800)] [(3, 700)]) []
    = Ok {| title := report_title; analysis := steps;
            summary := count_mismatch_summary 59;
            best_allocation := None |}.
Proof.
  destruct (count_mismatch_rejected
              (fun _ _ => Raise ValueError) (firstn 59 sample_roster)
              [(1, 900)] [(2, 800)] [(3, 700)] [])
    as (Hrun & _).
  - simpl. lia.
  - eexists. exact Hrun.
Defined.

(** A roster of 59 teams is rejected for its count, and the report all the
    same carries the total-power evaluation: total 5000, required 6000,
    difference -1000. *)
Lemma count_mismatch_evaluates_power :
  exists r,
    run_precise_optimization_logic (firstn 59 weak_roster)
      (enemy_lanes [(1, 2000)] [(2, 2000)] [(3, 2000)]) []
    = Ok r
    /\ summary r = count_mismatch_summary 59
    /\ best_allocation r = None
    /\ In (TotalPowerEvaluation 5000 6000 (-1000)) (analysis r)
    /\ ~ no_power_evaluation r.
Proof.
  eexists. split; [reflexivity |].
  split; [reflexivity |]. split; [reflexivity |].
  assert (In (TotalPowerEvaluation 5000 6000 (-1000))
             [ TargetCalculation (lane_targets 2000 2000 2000)
                 (lane_targets 2000 2000 2000);
               TotalPowerEvaluation 5000 6000 (-1000) ]) as Hin
    by (right; left; reflexivity).
  split; [exact Hin |].
  intros Hno. exact (Hno _ _ _ Hin).
Qed.




(** ** The parser *)

Section ParseFacts.
Variable char : Type.
Variable digit_value : char -> option Z.

Local Abbreviation digit := (is_digit char digit_value).
Local Abbreviation runs_of := (spec_digit_runs char digit_value).
Local Abbreviation number := (spec_number char digit_value).

Lemma findall_loop_digits run digits rest :
  forallb digit digits = true ->
  findall_loop char digit_value run (digits ++ rest)
  = findall_loop char digit_value (run ++ digits) rest.
Proof.
  revert run. induction digits as [| c digits IH]; intros run H; simpl.
  - now rewrite app_nil_r.
  - simpl in H. apply andb_true_iff in H as [Hc Hds].
    rewrite Hc, IH by assumption. now rewrite <- app_assoc.
Qed.

Lemma findall_loop_runs text : forall run,
  forallb digit run = true ->
  (run = [] -> runs_of text (findall_loop char digit_value [] text))
  /\ (run <> [] ->
      runs_of (run ++ text) (findall_loop char digit_value run text)).
Proof.
  induction text as [| c text IH]; intros run Hrun.
  - split.
    + intros _. constructor.
    + intros Hne. rewrite app_nil_r. simpl.
      destruct run as [| d run]; [congruence |].
      now apply runs_last.
  - assert (runs_of text (findall_loop char digit_value [] text)) as Hnil.
    { destruct (IH [] eq_refl) as [H _]. now apply H. }
    assert (runs_of (c :: text) (findall_loop char digit_value [] (c :: text)))
      as Hempty.
    { simpl. destruct (digit c) eqn:Hc.
      - assert (forallb digit [c] = true) as H1 by (simpl; now rewrite Hc).
        destruct (IH [c] H1) as [_ H]. apply H. discriminate.
      - now apply runs_skip. }
    split; [intros _; exact Hempty |].
    intros Hne. simpl. destruct (digit c) eqn:Hc.
    + replace (run ++ c :: text) with ((run ++ [c]) ++ text)
        by now rewrite <- app_assoc.
      assert (forallb digit (run ++ [c]) = true) as H1.
      { rewrite forallb_app, Hrun. simpl. now rewrite Hc. }
      destruct (IH (run ++ [c]) H1) as [_ H]. apply H.
      destruct run; discriminate.
    + destruct run as [| d run]; [congruence |].
      now apply runs_more.
Qed.

Lemma re_findall_digits_runs text :
  runs_of text (re_findall_digits char digit_value text).
Proof.
  destruct (findall_loop_runs text [] eq_refl) as [H _]. now apply H.
Qed.

Lemma spec_digit_runs_unique text runs :
  runs_of text runs -> runs = re_findall_digits char digit_value text.
Proof.
  unfold re_findall_digits.
  induction 1 as [| c text runs Hc _ IH | run Hne Hrun
                  | run c text runs Hne Hrun Hc _ IH].
  - reflexivity.
  - simpl. now rewrite Hc.
  - rewrite <- (app_nil_r run) at 2.
    rewrite findall_loop_digits by assumption. simpl.
    destruct run; [congruence | reflexivity].
  - rewrite findall_loop_digits by assumption. simpl. rewrite Hc.
    destruct run; [congruence |]. now rewrite IH.
Qed.

Lemma spec_digit_runs_wf text runs :
  runs_of text runs ->
  Forall (fun run => run <> [] /\ forallb digit run = true) runs.
Proof. induction 1; auto. Qed.

Lemma py_int_loop run : forall n,
  forallb digit run = true ->
  fold_left
    (fun acc c =>
       m <- acc ;;
       match digit_value c with
       | Some d => Ok (10 * m + d)
       | None => Raise ValueError
       end)
    run (Ok n)
  = Ok (fold_left
          (fun m c =>
             10 * m + match digit_value c with Some d => d | None => 0 end)
          run n).
Proof.
  induction run as [| c run IH]; intros n Hrun; simpl.
  - reflexivity.
  - simpl in Hrun. apply andb_true_iff in Hrun as [Hc Hrun].
    unfold is_digit in Hc. destruct (digit_value c) as [d |]; [| discriminate].
    simpl. now apply IH.
Qed.

Lemma py_int_number run :
  run <> [] -> forallb digit run = true ->
  py_int char digit_value run = Ok (number run).
Proof.
  intros Hne Hrun. unfold py_int, spec_number.
  destruct run as [| c0 run0] eqn:E; [congruence |].
  now apply py_int_loop.
Qed.

Lemma skipn_nth_error {A : Type} (l : list A) : forall i a,
  nth_error l i = Some a -> skipn i l = a :: skipn (S i) l.
Proof.
  induction l as [| x l IH]; intros [| i] a H; simpl in H; try discriminate.
  - now injection H as ->.
  - simpl. now apply IH.
Qed.

Lemma pair_numbers_from numbers :
  Forall (fun run => run <> [] /\ forallb digit run = true) numbers ->
  forall m j acc,
    (j + m = (length numbers - 0 + 2 - 1) / 2)%nat ->
    fold_left (pair_step char digit_value numbers)
      (map (fun k => (0 + k * 2)%nat) (seq j m)) (Ok acc)
    = Ok (acc ++ spec_pair_up (map number (skipn (2 * j) numbers))).
Proof.
  intros Hwf.
  pose proof (Nat.div_mod_eq (length numbers - 0 + 2 - 1) 2) as Hdiv.
  pose proof (Nat.mod_upper_bound (length numbers - 0 + 2 - 1) 2) as Hmod.
  assert (forall i run, nth_error numbers i = Some run ->
                        py_int char digit_value run = Ok (number run)) as Hint.
  { intros i run Hi. apply nth_error_In in Hi.
    rewrite Forall_forall in Hwf. destruct (Hwf _ Hi) as [Hne Hrun].
    now apply py_int_number. }
  induction m as [| m IH]; intros j acc Hj.
  - simpl. rewrite skipn_all2 by lia. simpl. now rewrite app_nil_r.
  - cbn [seq map fold_left].
    replace (0 + j * 2)%nat with (2 * j)%nat by lia.
    unfold pair_step at 2. cbn [bind].
    destruct (nth_error numbers (2 * j)) as [a |] eqn:Ha;
      [| apply nth_error_None in Ha; lia].
    rewrite (skipn_nth_error _ _ _ Ha).
    destruct (Nat.ltb_spec (2 * j + 1) (length numbers)) as [Hlt | Hge].
    + destruct (nth_error numbers (2 * j + 1)) as [b |] eqn:Hb;
        [| apply nth_error_None in Hb; lia].
      unfold list_index. rewrite Ha, Hb. cbn [bind].
      rewrite (Hint _ _ Ha), (Hint _ _ Hb). cbn [bind].
      rewrite IH by lia.
      replace (S (2 * j)) with (2 * j + 1)%nat by lia.
      rewrite (skipn_nth_error _ _ _ Hb).
      replace (S (2 * j + 1)) with (2 * S j)%nat by lia.
      simpl map. cbn [spec_pair_up]. now rewrite <- app_assoc.
    + rewrite IH by lia.
      rewrite !skipn_all2 by lia. reflexivity.
Qed.

Lemma pair_numbers_spec numbers :
  Forall (fun run => run <> [] /\ forallb digit run = true) numbers ->
  pair_numbers char digit_value numbers
  = Ok (spec_pair_up (map number numbers)).
Proof.
  intros Hwf. unfold pair_numbers, py_range.
  now rewrite (pair_numbers_from numbers Hwf _ 0%nat []).
Qed.

Lemma spec_pair_up_length numbers :
  length (spec_pair_up numbers) = (length numbers / 2)%nat.
Proof.
  assert (forall n (l : list Z), (length l < n)%nat ->
            length (spec_pair_up l) = (length l / 2)%nat) as H.
  { induction n as [| n IH]; intros l Hl; [lia |].
    destruct l as [| a [| b l]]; try reflexivity.
    cbn [spec_pair_up length]. rewrite IH by (simpl in Hl; lia).
    change (S (S (length l))) with (1 * 2 + length l)%nat.
    rewrite Nat.div_add_l by lia. lia. }
  apply (H (S (length numbers))). lia.
Qed.

Lemma parse_power_data_spec text :
  parse_power_data char digit_value (Some text)
  = Ok (py_sorted team_power true
          (spec_pair_up
             (map number (re_findall_digits char digit_value text)))).
Proof.
  destruct text as [| c rest]; [reflexivity |].
  unfold parse_power_data.
  rewrite pair_numbers_spec; [reflexivity |].
  apply spec_digit_runs_wf with (text := c :: rest).
  apply re_findall_digits_runs.
Qed.

End ParseFacts.

Example parse_power_data_sample :
  parse_power_data ascii ascii_digit_value
    (Some (list_ascii_of_string "1 100, 2:300 x3 300 7"))
  = Ok [(2, 300); (3, 300); (1, 100)].
Proof. reflexivity. Qed.


(** ** The allocator on the store *)

Lemma store_get_old h0 l r :
  (r < length h0)%nat -> store_get (h0 ++ l) r = store_get h0 r.
Proof. intros H. unfold store_get. now apply app_nth1. Qed.

Lemma store_get_new h0 l k :
  store_get (h0 ++ l) (length h0 + k)%nat = nth k l [].
Proof. unfold store_get. apply app_nth2_plus. Qed.

Lemma store_append_new h0 : forall l k t,
  store_append (h0 ++ l) (length h0 + k)%nat t = h0 ++ store_append l k t.
Proof.
  induction h0 as [| x h0 IH]; intros l k t; simpl.
  - reflexivity.
  - now rewrite IH.
Qed.

Lemma lane_view_at h0 dl dc dr :
  lane_view (store_with h0 dl dc dr) (lane_at (length h0) dl) = dl
  /\ lane_view (store_with h0 dl dc dr) (lane_at (length h0 + 1)%nat dc) = dc
  /\ lane_view (store_with h0 dl dc dr) (lane_at (length h0 + 2)%nat dr) = dr.
Proof.
  unfold lane_view, lane_at, store_with. cbn [teams_ref ref_current_power ref_target].
  rewrite !store_get_new.
  rewrite <- (Nat.add_0_r (length h0)) at 1. rewrite store_get_new.
  destruct dl, dc, dr. auto.
Qed.

Lemma lanes_view_at h0 dl dc dr :
  lanes_view (store_with h0 dl dc dr) (lanes_at (length h0) dl dc dr)
  = lanes3 dl dc dr.
Proof.
  destruct (lane_view_at h0 dl dc dr) as (Hl & Hc & Hr).
  unfold lanes_view, lanes_at, lanes3. cbn [map fst snd].
  now rewrite Hl, Hc, Hr.
Qed.

Lemma store_with_append h0 dl dc dr t :
  store_append (store_with h0 dl dc dr) (length h0) t
  = store_with h0 (add_team t dl) dc dr
  /\ store_append (store_with h0 dl dc dr) (length h0 + 1)%nat t
     = store_with h0 dl (add_team t dc) dr
  /\ store_append (store_with h0 dl dc dr) (length h0 + 2)%nat t
     = store_with h0 dl dc (add_team t dr).
Proof.
  unfold store_with. rewrite !store_append_new.
  rewrite <- (Nat.add_0_r (length h0)) at 1. rewrite store_append_new.
  auto.
Qed.

Lemma assign_team_ref_sim h0 dl dc dr t :
  exists dl' dc' dr',
    assign_team (lanes3 dl dc dr) t = Ok (lanes3 dl' dc' dr')
    /\ assign_team_ref (store_with h0 dl dc dr)
         (lanes_at (length h0) dl dc dr) t
       = Ok (store_with h0 dl' dc' dr', lanes_at (length h0) dl' dc' dr').
Proof.
  destruct (lane_view_at h0 dl dc dr) as (Vl & Vc & Vr).
  destruct (store_with_append h0 dl dc dr t) as (Al & Ac & Ar).
  unfold assign_team, assign_team_ref, dict_map_values, lanes3, lanes_at,
    dict_values.
  cbn [fold_left fst snd dict_set lane_eqb map forallb orb].
  rewrite Vl, Vc, Vr.
  destruct (room_dec dl) as [Hl | Hl];
    [rewrite (lane_deficit_room _ Hl) | rewrite (lane_deficit_full _ Hl)];
  (destruct (room_dec dc) as [Hc | Hc];
    [rewrite (lane_deficit_room _ Hc) | rewrite (lane_deficit_full _ Hc)]);
  (destruct (room_dec dr) as [Hr | Hr];
    [rewrite (lane_deficit_room _ Hr) | rewrite (lane_deficit_full _ Hr)]);
  cbn [is_neg_inf andb py_max_key max_loop deficit_gtb fst snd bind];
  repeat match goal with
         | |- context [?a <? ?b] => destruct (Z.ltb_spec a b)
         end;
  cbn [max_loop deficit_gtb fst snd bind dict_index dict_get lane_eqb dict_set
       lane_at teams_ref ref_current_power ref_target];
  rewrite ?Al, ?Ac, ?Ar;
  eexists _, _, _; (split; reflexivity).
Qed.

Lemma skipn_cons_inv {A : Type} (l : list A) : forall i t rest,
  skipn i l = t :: rest -> nth_error l i = Some t /\ skipn (S i) l = rest.
Proof.
  induction l as [| x l IH]; intros [| i] t rest H; simpl in H;
    try discriminate.
  - injection H as -> ->. auto.
  - apply IH in H. exact H.
Qed.

Lemma skipn_nil_inv {A : Type} (l : list A) i :
  skipn i l = [] -> nth_error l i = None.
Proof.
  intros H. apply nth_error_None.
  apply (f_equal (@length A)) in H. rewrite length_skipn in H. simpl in H. lia.
Qed.

Lemma assign_all_ref_sim h0 r : forall todo i dl dc dr fuel,
  (r < length h0)%nat ->
  skipn i (store_get h0 r) = todo ->
  (length todo < fuel)%nat ->
  exists dl' dc' dr',
    assign_all (lanes3 dl dc dr) todo = Ok (lanes3 dl' dc' dr')
    /\ assign_all_ref fuel (store_with h0 dl dc dr) r i
         (lanes_at (length h0) dl dc dr)
       = Some (Ok (store_with h0 dl' dc' dr',
                   lanes_at (length h0) dl' dc' dr')).
Proof.
  induction todo as [| t todo IH]; intros i dl dc dr fuel Hr Hskip Hfuel;
    (destruct fuel as [| fuel]; [simpl in Hfuel; lia |]);
    cbn [assign_all_ref]; unfold store_with at 1;
    rewrite (store_get_old _ _ _ Hr).
  - rewrite (skipn_nil_inv _ _ Hskip).
    exists dl, dc, dr. split; reflexivity.
  - destruct (skipn_cons_inv _ _ _ _ Hskip) as [Hnth Hrest].
    rewrite Hnth.
    destruct (assign_team_ref_sim h0 dl dc dr t)
      as (dl1 & dc1 & dr1 & Hpure & Href).
    fold (store_with h0 dl dc dr). rewrite Href.
    destruct (IH (S i) dl1 dc1 dr1 fuel Hr Hrest)
      as (dl' & dc' & dr' & Hpure' & Href'); [simpl in Hfuel; lia |].
    exists dl', dc', dr'. split; [| exact Href'].
    cbn [assign_all]. rewrite Hpure. exact Hpure'.
Qed.

Lemma init_lanes_ref_at h0 tl tc tr :
  exists dl dc dr,
    init_lanes (lane_targets tl tc tr) = Ok (lanes3 dl dc dr)
    /\ init_lanes_ref h0 (lane_targets tl tc tr)
       = Ok (store_with h0 dl dc dr, lanes_at (length h0) dl dc dr).
Proof.
  eexists _, _, _. split; [reflexivity |].
  unfold init_lanes_ref, store_new, store_with, lanes_at, lane_at.
  cbn [lane_targets dict_index dict_get lane_eqb bind teams current_power target].
  rewrite !length_app. cbn [length].
  rewrite <- !app_assoc. cbn [app].
  rewrite <- Nat.add_assoc. reflexivity.
Qed.

Lemma find_best_allocation_ref_sim h0 r tl tc tr k :
  (r < length h0)%nat ->
  exists dl dc dr,
    lanes_after (store_get h0 r) (lane_targets tl tc tr) = Ok (lanes3 dl dc dr)
    /\ find_best_allocation_ref (S (length (store_get h0 r)) + k) h0 r
         (lane_targets tl tc tr)
       = Some (Ok (store_with h0 dl dc dr, finalize (lanes3 dl dc dr))).
Proof.
  intros Hr.
  destruct (init_lanes_ref_at h0 tl tc tr) as (il & ic & ir & Hinit & Hinit_ref).
  destruct (assign_all_ref_sim h0 r (store_get h0 r) 0 il ic ir
              (S (length (store_get h0 r)) + k) Hr eq_refl)
    as (dl & dc & dr & Hpure & Href); [lia |].
  exists dl, dc, dr. split.
  - unfold lanes_after. rewrite Hinit. exact Hpure.
  - unfold find_best_allocation_ref. rewrite Hinit_ref, Href.
    now rewrite lanes_view_at.
Qed.

Lemma store_get_middle (before after : store) (l : list team) :
  store_get (before ++ l :: after) (length before) = l.
Proof. unfold store_get. apply nth_middle. Qed.

Lemma middle_in_store (before after : store) (l : list team) :
  (length before < length (before ++ l :: after))%nat.
Proof. rewrite length_app. simpl. lia. Qed.

(** ** Contracts of a run of the allocator *)

(** C10: for a roster of any length and any targets, [find_best_allocation]
    returns, without an exception; the three lanes together hold as many
    teams as the smaller of the roster's length and 60, namely the first 60
    teams of the roster (the whole roster when it is shorter, the teams past
    the 60th left out when it is longer); and the caller's list object, as
    every list object the caller had, is as it was. *)
Theorem find_best_allocation_total
    (before after : store) (our_teams : list team) (tl tc tr : Z) (k : nat) :
  exists h' ok rl rc rr,
    find_best_allocation_ref (S (length our_teams) + k)
      (before ++ our_teams :: after) (length before) (lane_targets tl tc tr)
    = Some (Ok (h', {| success := ok;
                       lanes_out := [(left, rl); (center, rc); (right, rr)] |}))
    /\ find_best_allocation our_teams (lane_targets tl tc tr)
       = Ok {| success := ok;
               lanes_out := [(left, rl); (center, rc); (right, rr)] |}
    /\ (count rl + count rc + count rr = Nat.min (length our_teams) 60)%nat
    /\ Permutation (res_teams rl ++ res_teams rc ++ res_teams rr)
         (firstn 60 our_teams)
    /\ store_get h' (length before) = our_teams
    /\ firstn (length (before ++ our_teams :: after)) h'
       = before ++ our_teams :: after.
Proof.
  pose proof (middle_in_store before after our_teams) as Hr.
  destruct (find_best_allocation_ref_sim _ _ tl tc tr k Hr)
    as (dl & dc & dr & Hlanes & Href).
  rewrite store_get_middle in Hlanes, Href.
  destruct (find_best_allocation_lanes tl tc tr our_teams)
    as (dl' & dc' & dr' & Hlanes' & Hrun & _ & _ & _ & Hperm).
  rewrite Hlanes in Hlanes'. injection Hlanes' as <- <- <-.
  rewrite finalize_lanes3 in Href, Hrun.
  eexists _, _, _, _, _. split; [exact Href |]. split; [exact Hrun |].
  cbn [count res_teams lane_report].
  split.
  { pose proof (perm_lanes_length _ _ _ _ Hperm). lia. }
  split.
  { now rewrite !py_sorted_perm. }
  split.
  { unfold store_with. rewrite store_get_old by exact Hr.
    apply store_get_middle. }
  unfold store_with. rewrite firstn_app, Nat.sub_diag, firstn_all. simpl.
  apply app_nil_r.
Qed.

(** C9: a run on a given roster and given targets returns the allocation
    the function [find_best_allocation] determines, and a second run on the
    same roster object and the same targets, in the store the first run
    left, returns that same allocation. *)
Theorem find_best_allocation_rerun
    (before after : store) (our_teams : list team) (tl tc tr : Z)
    (k1 k2 : nat) :
  exists h1 h2 a,
    find_best_allocation our_teams (lane_targets tl tc tr) = Ok a
    /\ find_best_allocation_ref (S (length our_teams) + k1)
         (before ++ our_teams :: after) (length before) (lane_targets tl tc tr)
       = Some (Ok (h1, a))
    /\ find_best_allocation_ref (S (length our_teams) + k2)
         h1 (length before) (lane_targets tl tc tr)
       = Some (Ok (h2, a)).
Proof.
  pose proof (middle_in_store before after our_teams) as Hr.
  destruct (find_best_allocation_ref_sim _ _ tl tc tr k1 Hr)
    as (dl & dc & dr & Hlanes & Href).
  rewrite store_get_middle in Hlanes, Href.
  set (h0 := before ++ our_teams :: after) in *.
  assert (length before < length (store_with h0 dl dc dr))%nat as Hr1.
  { unfold store_with. rewrite length_app. lia. }
  assert (store_get (store_with h0 dl dc dr) (length before) = our_teams)
    as Hsame.
  { unfold store_with. rewrite store_get_old by exact Hr.
    apply store_get_middle. }
  destruct (find_best_allocation_ref_sim _ _ tl tc tr k2 Hr1)
    as (dl2 & dc2 & dr2 & Hlanes2 & Href2).
  rewrite Hsame in Hlanes2, Href2.
  rewrite Hlanes in Hlanes2. injection Hlanes2 as <- <- <-.
  eexists _, _, _. split; [| split; [exact Href | exact Href2]].
  unfold find_best_allocation. now rewrite Hlanes.
Qed.

(** * Part III: further properties of the code *)

(** ** The allocator *)

(** X1: the three lanes together carry exactly the power of the teams that
    were placed, the first 60 of the roster, and their differences add up to
    that power minus the sum of the targets. *)
Theorem allocation_conserves_power (tl tc tr : Z) (our_teams : list team) :
  exists ok rl rc rr,
    find_best_allocation our_teams (lane_targets tl tc tr)
    = Ok {| success := ok;
            lanes_out := [(left, rl); (center, rc); (right, rr)] |}
    /\ total_power rl + total_power rc + total_power rr
       = py_sum (map team_power (firstn 60 our_teams))
    /\ difference rl + difference rc + difference rr
       = py_sum (map team_power (firstn 60 our_teams)) - (tl + tc + tr).
Proof.
  destruct (find_best_allocation_lanes tl tc tr our_teams)
    as (dl & dc & dr & _ & Hrun & Hl & Hc & Hr & Hperm).
  rewrite finalize_lanes3 in Hrun.
  eexists _, _, _, _. split; [exact Hrun |].
  destruct Hl as (_ & Sl & Tl), Hc as (_ & Sc & Tc), Hr as (_ & Sr & Tr).
  cbn [total_power difference lane_report].
  assert (current_power dl + current_power dc + current_power dr
          = py_sum (map team_power (firstn 60 our_teams))) as Hsum.
  { rewrite <- (py_sum_perm _ _ (Permutation_map team_power Hperm)).
    rewrite !map_app, !py_sum_app, Sl, Sc, Sr. lia. }
  split; [exact Hsum | lia].
Qed.

Lemma full_lanes_stay dl dc dr rest :
  ~ room dl -> ~ room dc -> ~ room dr ->
  assign_all (lanes3 dl dc dr) rest = Ok (lanes3 dl dc dr).
Proof.
  intros Fl Fc Fr. induction rest as [| t rest IH]; [reflexivity |].
  cbn [assign_all].
  destruct (assign_team_lanes3 dl dc dr t) as (lanes' & -> & Hcase).
  destruct Hcase; try contradiction. exact IH.
Qed.

Lemma lanes_full_at_60 tl tc tr our_teams dl dc dr :
  (60 <= length our_teams)%nat ->
  lane_ok tl dl -> lane_ok tc dc -> lane_ok tr dr ->
  Permutation (teams dl ++ teams dc ++ teams dr) (firstn 60 our_teams) ->
  length (teams dl) = 20%nat /\ length (teams dc) = 20%nat
  /\ length (teams dr) = 20%nat.
Proof.
  intros Hlen (Hl & _) (Hc & _) (Hr & _) Hperm.
  pose proof (perm_lanes_length _ _ _ _ Hperm). lia.
Qed.

(** X2: with 60 teams or more, every lane ends with exactly 20 teams. *)
Theorem lanes_filled_evenly (tl tc tr : Z) (our_teams : list team) :
  (60 <= length our_teams)%nat ->
  exists ok rl rc rr,
    find_best_allocation our_teams (lane_targets tl tc tr)
    = Ok {| success := ok;
            lanes_out := [(left, rl); (center, rc); (right, rr)] |}
    /\ count rl = 20%nat /\ count rc = 20%nat /\ count rr = 20%nat
    /\ length (res_teams rl) = 20%nat /\ length (res_teams rc) = 20%nat
    /\ length (res_teams rr) = 20%nat.
Proof.
  intros Hlen.
  destruct (find_best_allocation_lanes tl tc tr our_teams)
    as (dl & dc & dr & _ & Hrun & Hl & Hc & Hr & Hperm).
  rewrite finalize_lanes3 in Hrun.
  destruct (lanes_full_at_60 _ _ _ _ _ _ _ Hlen Hl Hc Hr Hperm)
    as (Nl & Nc & Nr).
  eexists _, _, _, _. split; [exact Hrun |].
  cbn [count res_teams lane_report]. rewrite !py_sorted_length. auto 6.
Qed.

Lemma lanes_filled_evenly_witness :
  exists ok rl rc rr,
    find_best_allocation (sample_roster ++ [(61, 999); (62, 5)])
      (lane_targets 2500 2600 2700)
    = Ok {| success := ok;
            lanes_out := [(left, rl); (center, rc); (right, rr)] |}
    /\ count rl = 20%nat /\ count rc = 20%nat /\ count rr = 20%nat.
Proof.
  destruct (lanes_filled_evenly 2500 2600 2700
              (sample_roster ++ [(61, 999); (62, 5)]))
    as (ok & rl & rc & rr & Hrun & Nl & Nc & Nr & _).
  - simpl. lia.
  - exists ok, rl, rc, rr. auto.
Defined.

(** X3: the teams past the 60th have no influence: the allocation of a
    roster is the allocation of its first 60 teams. *)
Theorem excess_teams_ignored (tl tc tr : Z) (our_teams : list team) :
  find_best_allocation our_teams (lane_targets tl tc tr)
  = find_best_allocation (firstn 60 our_teams) (lane_targets tl tc tr).
Proof.
  destruct (Nat.le_gt_cases (length our_teams) 60) as [Hshort | Hlong].
  { now rewrite firstn_all2. }
  destruct (find_best_allocation_lanes tl tc tr (firstn 60 our_teams))
    as (dl & dc & dr & Hlanes & Hrun & Hl & Hc & Hr & Hperm).
  assert (60 <= length (firstn 60 our_teams))%nat as Hlen
    by (rewrite length_firstn; lia).
  destruct (lanes_full_at_60 _ _ _ _ _ _ _ Hlen Hl Hc Hr Hperm)
    as (Nl & Nc & Nr).
  rewrite Hrun. unfold find_best_allocation.
  rewrite <- (firstn_skipn 60 our_teams) at 1.
  rewrite lanes_after_app, Hlanes. cbn [bind].
  rewrite full_lanes_stay by (unfold room; lia). reflexivity.
Qed.

(** X4: the allocation can only succeed when the teams that are placed have
    at least the power the three targets ask for together. *)
Theorem success_needs_total (tl tc tr : Z) (our_teams : list team)
    (a : allocation) :
  find_best_allocation our_teams (lane_targets tl tc tr) = Ok a ->
  success a = true ->
  tl + tc + tr <= py_sum (map team_power (firstn 60 our_teams)).
Proof.
  intros Hrun Hok.
  destruct (find_best_allocation_lanes tl tc tr our_teams)
    as (dl & dc & dr & _ & Hrun' & Hl & Hc & Hr & Hperm).
  rewrite Hrun' in Hrun. injection Hrun as <-.
  rewrite finalize_lanes3 in Hok. cbn [success is_success lane_report] in Hok.
  apply andb_true_iff in Hok as [Hok Hok3].
  apply andb_true_iff in Hok as [Hok1 Hok2].
  apply Z.geb_le in Hok1, Hok2, Hok3.
  destruct Hl as (_ & Sl & Tl), Hc as (_ & Sc & Tc), Hr as (_ & Sr & Tr).
  rewrite <- (py_sum_perm _ _ (Permutation_map team_power Hperm)).
  rewrite !map_app, !py_sum_app. lia.
Qed.

Lemma success_needs_total_witness :
  2000 + 2000 + 2000 <= py_sum (map team_power (firstn 60 sample_roster)).
Proof.
  eapply (success_needs_total 2000 2000 2000 sample_roster).
  - vm_compute. reflexivity.
  - reflexivity.
Defined.


Example targets_in_other_order :
  find_best_allocation sample_roster [(right, 2700); (left, 2500); (center, 2600)]
  = find_best_allocation sample_roster (lane_targets 2500 2600 2700)
  /\ find_best_allocation sample_roster [(right, 2700); (left, 2500)]
     = Raise KeyError.
Proof. split; reflexivity. Qed.

Lemma perm_interleave {A : Type} (a b c x y z : list A) :
  Permutation ((a ++ b ++ c) ++ x ++ y ++ z) ((a ++ x) ++ (b ++ y) ++ c ++ z).
Proof.
  rewrite <- !app_assoc. apply Permutation_app_head.
  rewrite (Permutation_app_swap_app c x), (Permutation_app_swap_app b x).
  do 2 apply Permutation_app_head. apply Permutation_app_swap_app.
Qed.

Lemma assign_all_extends rest : forall ml mc mr dl dc dr,
  assign_all (lanes3 ml mc mr) rest = Ok (lanes3 dl dc dr) ->
  exists el ec er,
    teams dl = teams ml ++ el /\ teams dc = teams mc ++ ec
    /\ teams dr = teams mr ++ er.
Proof.
  induction rest as [| t rest IH]; intros ml mc mr dl dc dr H.
  - unfold lanes3 in H. simpl in H. injection H as <- <- <-.
    exists [], [], []. now rewrite !app_nil_r.
  - cbn [assign_all] in H.
    destruct (assign_team_lanes3 ml mc mr t) as (lanes1 & E & Hcase).
    rewrite E in H. cbn [bind] in H.
    destruct Hcase; apply IH in H as (el & ec & er & Hl & Hc & Hr);
      simpl in Hl, Hc, Hr.
    + exists el, ec, er. auto.
    + rewrite <- app_assoc in Hl. exists ([t] ++ el), ec, er. auto.
    + rewrite <- app_assoc in Hc. exists el, ([t] ++ ec), er. auto.
    + rewrite <- app_assoc in Hr. exists el, ec, ([t] ++ er). auto.
Qed.

(** X6: a team that was placed stays where it is: when the loop goes on
    over further teams [rest], every lane's list keeps what it held, in the
    same order, and is extended at its end; the extensions together are the
    teams of [rest] that still found room, the first [60 - length pre]. *)
Theorem placed_teams_stay (tl tc tr : Z) (pre rest : list team) :
  exists ml mc mr dl dc dr el ec er,
    lanes_after pre (lane_targets tl tc tr) = Ok (lanes3 ml mc mr)
    /\ lanes_after (pre ++ rest) (lane_targets tl tc tr) = Ok (lanes3 dl dc dr)
    /\ teams dl = teams ml ++ el
    /\ teams dc = teams mc ++ ec
    /\ teams dr = teams mr ++ er
    /\ Permutation (el ++ ec ++ er) (firstn (60 - length pre) rest).
Proof.
  destruct (find_best_allocation_lanes tl tc tr pre)
    as (ml & mc & mr & Hmid & _ & _ & _ & _ & Pm).
  destruct (find_best_allocation_lanes tl tc tr (pre ++ rest))
    as (dl & dc & dr & Hfin & _ & _ & _ & _ & Pd).
  pose proof Hfin as Hrun. rewrite lanes_after_app, Hmid in Hrun.
  cbn [bind] in Hrun.
  destruct (assign_all_extends _ _ _ _ _ _ _ Hrun)
    as (el & ec & er & El & Ec & Er).
  exists ml, mc, mr, dl, dc, dr, el, ec, er.
  repeat (split; [assumption |]).
  rewrite firstn_app in Pd. rewrite El, Ec, Er in Pd.
  apply Permutation_app_inv_l with (l := firstn 60 pre).
  rewrite <- Pd. rewrite <- Pm at 1. apply perm_interleave.
Qed.

(** ** The report *)

Lemma summaries_distinct n d :
  count_mismatch_summary n <> success_summary
  /\ count_mismatch_summary n <> partial_summary
  /\ insufficient_power_summary d <> success_summary
  /\ insufficient_power_summary d <> partial_summary
  /\ success_summary <> partial_summary.
Proof.
  unfold count_mismatch_summary, insufficient_power_summary, success_summary,
    partial_summary.
  cbn [String.append]. repeat split; discriminate.
Qed.

(** X7: with exactly 60 home teams whose total power reaches the sum of the
    three targets, the allocator runs on the roster and the targets, its
    allocation is put in the report, and the summary is the success text when
    the allocation succeeded and the warning text otherwise. *)
Theorem allocation_attempted (our el ec er : list team) (adv : dict Z) :
  let tl := lane_total el + margin left adv in
  let tc := lane_total ec + margin center adv in
  let tr := lane_total er + margin right adv in
  let total := py_sum (map team_power our) in
  length our = 60%nat ->
  tl + tc + tr <= total ->
  exists a,
    find_best_allocation our (lane_targets tl tc tr) = Ok a
    /\ run_precise_optimization_logic our (enemy_lanes el ec er) adv
       = Ok {| title := report_title;
               analysis :=
                 [ TargetCalculation
                     (lane_targets (lane_total el) (lane_total ec)
                        (lane_total er))
                     (lane_targets tl tc tr);
                   TotalPowerEvaluation total (tl + tc + tr)
                     (total - (tl + tc + tr)) ];
               summary := if success a then success_summary
                          else partial_summary;
               best_allocation := Some a |}.
Proof.
  intros tl tc tr total Hlen Hpow. apply Nat.eqb_eq in Hlen.
  destruct (find_best_allocation_lanes tl tc tr our)
    as (dl & dc & dr & _ & Hrun & _).
  eexists. split; [exact Hrun |].
  unfold run_precise_optimization_logic.
  rewrite run_logic_targets. cbv zeta. rewrite Hlen. simpl negb. cbv iota.
  rewrite required_total. fold tl tc tr total.
  destruct (Z.ltb_spec (total - (tl + tc + tr)) 0) as [Hneg | _]; [lia |].
  rewrite Hrun. reflexivity.
Qed.

Lemma allocation_attempted_witness :
  exists a,
    run_precise_optimization_logic sample_roster
      (enemy_lanes [(1, 1500); (2, 400)] [(3, 2000)] [(4, 2100)])
      [(left, 100); (right, -100)]
    = Ok {| title := report_title;
            analysis :=
              [ TargetCalculation (lane_targets 1900 2000 2100)
                  (lane_targets 2000 2000 2000);
                TotalPowerEvaluation 7830 6000 1830 ];
            summary := success_summary;
            best_allocation := Some a |}.
Proof.
  destruct (allocation_attempted sample_roster
              [(1, 1500); (2, 400)] [(3, 2000)] [(4, 2100)]
              [(left, 100); (right, -100)])
    as (a & Ha & Hrun).
  - reflexivity.
  - vm_compute. discriminate.
  - exists a. rewrite Hrun.
    assert (success a = true) as ->.
    { vm_compute in Ha. injection Ha as <-. reflexivity. }
    reflexivity.
Defined.



(** X10: a report with the success text can be relied on: the roster had 60
    teams, the allocation in the report distributes exactly these teams over
    the three lanes, 20 to each, and every lane's power is at least the
    opposing total of the lane plus its margin. *)
Theorem success_report_sound
    (our el ec er : list team) (adv : dict Z) (r : report) :
  run_precise_optimization_logic our (enemy_lanes el ec er) adv = Ok r ->
  summary r = success_summary ->
  length our = 60%nat
  /\ exists rl rc rr,
       best_allocation r
       = Some {| success := true;
                 lanes_out := [(left, rl); (center, rc); (right, rr)] |}
       /\ Permutation (res_teams rl ++ res_teams rc ++ res_teams rr) our
       /\ count rl = 20%nat /\ count rc = 20%nat /\ count rr = 20%nat
       /\ total_power rl = py_sum (map team_power (res_teams rl))
       /\ total_power rc = py_sum (map team_power (res_teams rc))
       /\ total_power rr = py_sum (map team_power (res_teams rr))
       /\ total_power rl >= lane_total el + margin left adv
       /\ total_power rc >= lane_total ec + margin center adv
       /\ total_power rr >= lane_total er + margin right adv.
Proof.
  set (tl := lane_total el + margin left adv).
  set (tc := lane_total ec + margin center adv).
  set (tr := lane_total er + margin right adv).
  intros Hrun Hsum.
  destruct (find_best_allocation_lanes tl tc tr our)
    as (dl & dc & dr & _ & Halloc & Hl & Hc & Hr & Hperm).
  unfold run_precise_optimization_logic in Hrun.
  rewrite run_logic_targets in Hrun. cbv zeta in Hrun.
  rewrite required_total in Hrun. fold tl tc tr in Hrun.
  destruct (Nat.eqb_spec (length our) 60) as [Hlen | Hlen];
    simpl negb in Hrun; cbv iota in Hrun.
  2: { injection Hrun as <-. cbn [summary] in Hsum.
       now destruct (summaries_distinct (length our) 0) as (N1 & _). }
  destruct (py_sum (map team_power our) - (tl + tc + tr) <? 0).
  { injection Hrun as <-. cbn [summary] in Hsum.
    now destruct (summaries_distinct 0
                    (py_sum (map team_power our) - (tl + tc + tr)))
      as (_ & _ & N3 & _). }
  rewrite finalize_lanes3 in Halloc.
  rewrite Halloc in Hrun. cbn [bind success] in Hrun.
  destruct (is_success (lane_report dl) && is_success (lane_report dc)
            && is_success (lane_report dr)) eqn:Hok;
    injection Hrun as <-; cbn [summary best_allocation] in *.
  2: { symmetry in Hsum.
       now destruct (summaries_distinct 0 0) as (_ & _ & _ & _ & N5). }
  split; [exact Hlen |].
  assert (60 <= length our)%nat as Hge by lia.
  destruct (lanes_full_at_60 _ _ _ _ _ _ _ Hge Hl Hc Hr Hperm)
    as (Nl & Nc & Nr).
  destruct (lane_report_ok _ _ Hl) as (Sl & Tl & [Kl _] & _).
  destruct (lane_report_ok _ _ Hc) as (Sc & Tc & [Kc _] & _).
  destruct (lane_report_ok _ _ Hr) as (Sr & Tr & [Kr _] & _).
  apply andb_true_iff in Hok as [Hok Hok3].
  apply andb_true_iff in Hok as [Hok1 Hok2].
  exists (lane_report dl), (lane_report dc), (lane_report dr).
  split; [reflexivity |]. split.
  { cbn [res_teams lane_report]. rewrite !py_sorted_perm, Hperm.
    rewrite firstn_all2 by lia. reflexivity. }
  cbn [count lane_report].
  repeat (split; [assumption |]).
  rewrite <- Tl, <- Tc, <- Tr. auto.
Qed.

Lemma success_report_sound_witness :
  exists rl rc rr,
    Permutation (res_teams rl ++ res_teams rc ++ res_teams rr) sample_roster
    /\ total_power rl >= 2000 /\ total_power rc >= 2000
    /\ total_power rr >= 2000.
Proof.
  edestruct (success_report_sound sample_roster
               [(1, 1500); (2, 400)] [(3, 2000)] [(4, 2100)]
               [(left, 100); (right, -100)])
    as (_ & rl & rc & rr & _ & Hperm & _ & _ & _ & _ & _ & _ & Pl & Pc & Pr).
  - vm_compute. reflexivity.
  - reflexivity.
  - exists rl, rc, rr. auto.
Defined.

(** X11: the total-power check gives nothing away: with 60 teams whose total
    power is below the sum of the targets, the allocator, had it been run,
    would have returned an allocation that does not succeed. *)
Theorem insufficient_power_cannot_succeed
    (tl tc tr : Z) (our_teams : list team) :
  length our_teams = 60%nat ->
  py_sum (map team_power our_teams) < tl + tc + tr ->
  exists a,
    find_best_allocation our_teams (lane_targets tl tc tr) = Ok a
    /\ success a = false.
Proof.
  intros Hlen Hlow.
  destruct (find_best_allocation_lanes tl tc tr our_teams)
    as (dl & dc & dr & _ & Hrun & _).
  eexists. split; [exact Hrun |].
  destruct (success (finalize (lanes3 dl dc dr))) eqn:Hok; [| reflexivity].
  pose proof (success_needs_total _ _ _ _ _ Hrun Hok) as Hneed.
  rewrite firstn_all2 in Hneed by lia. lia.
Qed.

Lemma insufficient_power_cannot_succeed_witness :
  exists a,
    find_best_allocation weak_roster (lane_targets 2000 2000 2000) = Ok a
    /\ success a = false.
Proof.
  apply (insufficient_power_cannot_succeed 2000 2000 2000 weak_roster).
  - reflexivity.
  - vm_compute. reflexivity.
Defined.

Lemma lane_eqb_eq a b : lane_eqb a b = true <-> a = b.
Proof. destruct a, b; simpl; split; congruence. Qed.

Lemma dict_get_set_none {V : Type} (k k' : lane_name) (v : V) (d : dict V) :
  dict_get k (dict_set k' v d) = None <-> k <> k' /\ dict_get k d = None.
Proof.
  induction d as [| [k0 v0] d IH]; simpl.
  - destruct (lane_eqb k k') eqn:E.
    + apply lane_eqb_eq in E. split; [discriminate | intros [H _]; congruence].
    + split; [intros _; split; [| reflexivity] | reflexivity].
      intros ->. destruct k'; discriminate.
  - destruct (lane_eqb k' k0) eqn:E0; simpl.
    + apply lane_eqb_eq in E0. subst k0.
      destruct (lane_eqb k k') eqn:E.
      * split; [discriminate | intros [_ H]; discriminate].
      * split; [intros H; split; [| exact H] | intros [_ H]; exact H].
        intros ->. destruct k'; discriminate.
    + destruct (lane_eqb k k0) eqn:E.
      * split; [discriminate | intros [_ H]; discriminate].
      * exact IH.
Qed.

Lemma dict_map_values_none {V W : Type} (f : V -> W) (k : lane_name)
    (d : dict V) :
  dict_get k (dict_map_values f d) = None <-> dict_get k d = None.
Proof.
  unfold dict_map_values.
  assert (forall out : dict W,
            dict_get k (fold_left
                          (fun out item => dict_set (fst item) (f (snd item)) out)
                          d out) = None
            <-> dict_get k d = None /\ dict_get k out = None) as H.
  { induction d as [| [k0 v0] d IH]; intros out; simpl.
    - tauto.
    - rewrite IH, dict_get_set_none.
      destruct (lane_eqb k k0) eqn:E.
      + apply lane_eqb_eq in E. split; [tauto | intros [H _]; discriminate].
      + assert (k <> k0) by (intros ->; destruct k0; discriminate). tauto. }
  rewrite H. simpl. tauto.
Qed.

Lemma dict_map_values_cases {V W : Type} (f : V -> W) (k : lane_name)
    (d : dict V) :
  (dict_get k (dict_map_values f d) = None /\ dict_get k d = None)
  \/ (exists w v, dict_get k (dict_map_values f d) = Some w
                  /\ dict_get k d = Some v).
Proof.
  pose proof (dict_map_values_none f k d) as [H1 H2].
  destruct (dict_get k (dict_map_values f d)) as [w |],
    (dict_get k d) as [v |]; eauto.
Qed.


Lemma enemy_lanes_required_sample :
  run_precise_optimization_logic sample_roster
    [(left, [(1, 900)]); (right, [(3, 700)])] []
  = Raise KeyError.
Proof. reflexivity. Qed.

(** ** Numerals: [str], [int] and the parser on ASCII text *)

Local Abbreviation chars := list_ascii_of_string.
Local Abbreviation adigit := (is_digit ascii ascii_digit_value).

Lemma chars_app s1 s2 : chars (s1 ++ s2) = chars s1 ++ chars s2.
Proof.
  induction s1 as [| c s1 IH]; simpl; [reflexivity | now rewrite IH].
Qed.

Lemma uint_chars_digits d :
  forallb adigit (chars (NilEmpty.string_of_uint d)) = true.
Proof.
  induction d as [| d IH | d IH | d IH | d IH | d IH | d IH | d IH | d IH
                  | d IH | d IH];
    cbn [NilEmpty.string_of_uint list_ascii_of_string forallb];
    [reflexivity | rewrite IH; reflexivity ..].
Qed.

Lemma spec_number_step (c : ascii) (v : Z) (rest : list ascii) (n : Z) :
  ascii_digit_value c = Some v ->
  fold_left
    (fun m c => 10 * m + match ascii_digit_value c with
                         | Some d => d
                         | None => 0
                         end) (c :: rest) n
  = fold_left
      (fun m c => 10 * m + match ascii_digit_value c with
                           | Some d => d
                           | None => 0
                           end) rest (10 * n + v).
Proof. intros H. cbn [fold_left]. now rewrite H. Qed.

Ltac digit_step :=
  match goal with
  | |- context [fold_left _ (?c :: _) _] =>
      let v := eval vm_compute in (ascii_digit_value c) in
      match v with
      | Some ?k => rewrite (spec_number_step c k) by reflexivity
      end
  end.

Lemma uint_value_acc d : forall acc,
  fold_left
    (fun m c => 10 * m + match ascii_digit_value c with
                         | Some d => d
                         | None => 0
                         end)
    (chars (NilEmpty.string_of_uint d)) (Z.pos acc)
  = Z.pos (Pos.of_uint_acc d acc).
Proof.
  induction d as [| d IH | d IH | d IH | d IH | d IH | d IH | d IH | d IH
                  | d IH | d IH]; intros acc;
    cbn [NilEmpty.string_of_uint list_ascii_of_string Pos.of_uint_acc];
    [reflexivity | ..];
    digit_step; rewrite <- IH; f_equal; lia.
Qed.

Lemma uint_value d :
  spec_number ascii ascii_digit_value (chars (NilEmpty.string_of_uint d))
  = Z.of_N (Pos.of_uint d).
Proof.
  unfold spec_number.
  induction d as [| d IH | d IH | d IH | d IH | d IH | d IH | d IH | d IH
                  | d IH | d IH];
    cbn [NilEmpty.string_of_uint list_ascii_of_string Pos.of_uint];
    [reflexivity | ..];
    digit_step; [exact IH | apply (uint_value_acc d) ..].
Qed.

(** The digits [str] writes for a number that is not negative. *)
Lemma str_int_digits z :
  0 <= z ->
  chars (str_int z) <> []
  /\ forallb adigit (chars (str_int z)) = true
  /\ spec_number ascii ascii_digit_value (chars (str_int z)) = z.
Proof.
  intros Hz. destruct z as [| p | p]; [repeat split; discriminate | | lia].
  unfold str_int. cbn [Z.to_int NilZero.string_of_int].
  pose proof (DecimalPos.Unsigned.of_to p) as Hp.
  unfold NilZero.string_of_uint.
  destruct (Pos.to_uint p) as [| d | d | d | d | d | d | d | d | d | d] eqn:E;
    [discriminate | ..];
    (split; [discriminate |]);
    (split; [apply uint_chars_digits |]);
    rewrite uint_value, Hp; reflexivity.
Qed.

(** [str] of a negative number is a minus sign before the digits of its
    absolute value. *)
Lemma str_int_sign z :
  chars (str_int z)
  = (if z <? 0 then ["-"%char] else []) ++ chars (str_int (Z.abs z)).
Proof. destruct z; reflexivity. Qed.

Lemma findall_number_last z :
  re_findall_digits ascii ascii_digit_value (chars (str_int z))
  = [chars (str_int (Z.abs z))].
Proof.
  destruct (str_int_digits (Z.abs z) (Z.abs_nonneg z)) as (Hne & Hds & _).
  unfold re_findall_digits. rewrite str_int_sign.
  assert (findall_loop ascii ascii_digit_value []
            (chars (str_int (Z.abs z)))
          = [chars (str_int (Z.abs z))]) as H.
  { rewrite <- (app_nil_r (chars (str_int (Z.abs z)))) at 1.
    rewrite findall_loop_digits by assumption. simpl.
    destruct (chars (str_int (Z.abs z))); [congruence | reflexivity]. }
  destruct (z <? 0); [| exact H].
  cbn [app findall_loop]. exact H.
Qed.

Lemma findall_number_more z (more : list ascii) :
  re_findall_digits ascii ascii_digit_value
    (chars (str_int z) ++ " "%char :: more)
  = chars (str_int (Z.abs z))
      :: re_findall_digits ascii ascii_digit_value more.
Proof.
  destruct (str_int_digits (Z.abs z) (Z.abs_nonneg z)) as (Hne & Hds & _).
  unfold re_findall_digits. rewrite str_int_sign.
  assert (findall_loop ascii ascii_digit_value []
            (chars (str_int (Z.abs z)) ++ " "%char :: more)
          = chars (str_int (Z.abs z))
              :: findall_loop ascii ascii_digit_value [] more) as H.
  { rewrite findall_loop_digits by assumption. simpl.
    destruct (chars (str_int (Z.abs z))); [congruence | reflexivity]. }
  destruct (z <? 0); [| exact H].
  rewrite <- app_assoc. cbn [app findall_loop]. exact H.
Qed.

(** The parser reads the numbers of a text that [" ".join] made of them. *)
Lemma findall_joined (zs : list Z) :
  re_findall_digits ascii ascii_digit_value
    (chars (String.concat " " (map str_int zs)))
  = map (fun z => chars (str_int (Z.abs z))) zs.
Proof.
  induction zs as [| z zs IH]; [reflexivity |].
  destruct zs as [| z' zs].
  - simpl. apply findall_number_last.
  - change (String.concat " " (map str_int (z :: z' :: zs)))
      with (str_int z ++ " " ++ String.concat " " (map str_int (z' :: zs)))%string.
    rewrite chars_app. cbn [String.append list_ascii_of_string].
    rewrite findall_number_more, IH. reflexivity.
Qed.

Lemma parse_joined (zs : list Z) :
  parse_power_data ascii ascii_digit_value
    (Some (chars (String.concat " " (map str_int zs))))
  = Ok (py_sorted team_power true (spec_pair_up (map Z.abs zs))).
Proof.
  rewrite parse_power_data_spec, findall_joined, map_map.
  do 3 f_equal. apply map_ext. intros z.
  now destruct (str_int_digits (Z.abs z) (Z.abs_nonneg z)) as (_ & _ & H).
Qed.

(** ** [api_upload_excel] *)

Section UploadFacts.
Context {file cell E : Type}.
Variable filename : file -> string.
Variable read_excel : file -> tried E (list (list cell)).
Variable notna : cell -> bool.
Variable cell_int : cell -> tried E Z.
Variable exn_text : E -> string.

Local Abbreviation parts_from := (rows_text_parts cell E notna cell_int).
Local Abbreviation pairs_of := (sheet_pairs cell E notna cell_int).

Lemma rows_text_parts_pairs rows : forall acc parts,
  parts_from acc rows = Done parts ->
  exists pairs,
    pairs_of rows pairs
    /\ parts = acc ++ map str_int (flat_map (fun p => [fst p; snd p]) pairs).
Proof.
  induction rows as [| row rows IH]; intros acc parts H; simpl in H.
  - injection H as <-. exists []. split; [constructor | now rewrite app_nil_r].
  - destruct row as [| c0 [| c1 more]]; simpl in H.
    + destruct (IH _ _ H) as (pairs & Hp & ->).
      exists pairs. split; [apply sheet_short; [simpl; lia | exact Hp] | auto].
    + destruct (IH _ _ H) as (pairs & Hp & ->).
      exists pairs. split; [apply sheet_short; [simpl; lia | exact Hp] | auto].
    + destruct (notna c0 && notna c1) eqn:Hna.
      * destruct (cell_int c0) as [key | e] eqn:H0; [| discriminate].
        destruct (cell_int c1) as [value | e] eqn:H1; [| discriminate].
        destruct (IH _ _ H) as (pairs & Hp & ->).
        exists ((key, value) :: pairs).
        split; [now apply sheet_pair |].
        simpl. now rewrite <- !app_assoc.
      * destruct (IH _ _ H) as (pairs & Hp & ->).
        exists pairs. split; [now apply sheet_empty_cell | auto].
Qed.

Lemma rows_text_parts_failed rows : forall acc e,
  parts_from acc rows = Failed e ->
  exists c0 c1 more,
    In (c0 :: c1 :: more) rows
    /\ notna c0 && notna c1 = true
    /\ (cell_int c0 = Failed e \/ cell_int c1 = Failed e).
Proof.
  induction rows as [| row rows IH]; intros acc e H; simpl in H;
    [discriminate |].
  assert (forall acc', parts_from acc' rows = Failed e ->
            exists c0 c1 more,
              In (c0 :: c1 :: more) (row :: rows)
              /\ notna c0 && notna c1 = true
              /\ (cell_int c0 = Failed e \/ cell_int c1 = Failed e)) as Hrest.
  { intros acc' H'. destruct (IH _ _ H') as (c0 & c1 & more & Hin & Hrow).
    exists c0, c1, more. split; [now right | exact Hrow]. }
  destruct row as [| c0 [| c1 more]]; simpl in H; try (now apply Hrest in H).
  destruct (notna c0 && notna c1) eqn:Hna; [| now apply Hrest in H].
  destruct (cell_int c0) as [key | e0] eqn:H0.
  - destruct (cell_int c1) as [value | e1] eqn:H1; [now apply Hrest in H |].
    injection H as <-. exists c0, c1, more. split; [now left | auto].
  - injection H as <-. exists c0, c1, more. split; [now left | auto].
Qed.

Lemma rows_text_parts_bad_cell rows c0 c1 more : forall acc,
  In (c0 :: c1 :: more) rows ->
  notna c0 && notna c1 = true ->
  (exists e, cell_int c0 = Failed e) \/ (exists e, cell_int c1 = Failed e) ->
  exists e, parts_from acc rows = Failed e.
Proof.
  intros acc Hin Hna Hbad. revert acc.
  induction rows as [| row rows IH]; intros acc; [destruct Hin |].
  destruct Hin as [-> | Hin].
  - simpl. rewrite Hna.
    destruct (cell_int c0) as [key | e0]; [| eexists; reflexivity].
    destruct (cell_int c1) as [value | e1]; [| eexists; reflexivity].
    destruct Hbad as [[e He] | [e He]]; discriminate.
  - simpl.
    destruct (row_text_parts cell E notna cell_int acc row) as [parts | e];
      [apply (IH Hin) | eexists; reflexivity].
Qed.

End UploadFacts.

Lemma spec_pair_up_flat (pairs : list (Z * Z)) :
  spec_pair_up (map Z.abs (flat_map (fun p => [fst p; snd p]) pairs))
  = map (fun p => (Z.abs (fst p), Z.abs (snd p))) pairs.
Proof.
  induction pairs as [| p pairs IH]; [reflexivity |].
  simpl. now rewrite IH.
Qed.

(** X13: the text the upload answers with reads back as the sheet.  When
    [api_upload_excel] answers with a text, the sheet was read, and
    [parse_power_data] on that text gives one team for every row that has
    two cells or more and whose first two cells are not empty: the absolute
    values of the two integers, a minus sign being no digit; the teams come
    by descending power. *)
Theorem upload_then_parse
    (file cell E : Type) (filename : file -> string)
    (read_excel : file -> tried E (list (list cell)))
    (notna : cell -> bool) (cell_int : cell -> tried E Z)
    (exn_text : E -> string) (excel_file : option file) (text : string) :
  api_upload_excel file cell E filename read_excel notna cell_int exn_text
    excel_file = PowerText text ->
  exists f rows pairs,
    excel_file = Some f
    /\ read_excel f = Done rows
    /\ sheet_pairs cell E notna cell_int rows pairs
    /\ parse_power_data ascii ascii_digit_value
         (Some (list_ascii_of_string text))
       = Ok (py_sorted team_power true
               (map (fun p => (Z.abs (fst p), Z.abs (snd p))) pairs)).
Proof.
  unfold api_upload_excel. intros H.
  destruct excel_file as [f |]; [| discriminate].
  destruct (String.eqb (filename f) EmptyString); [discriminate |].
  destruct (read_excel f) as [rows | e] eqn:Hread; [| discriminate].
  destruct (rows_text_parts cell E notna cell_int [] rows) as [parts | e]
    eqn:Hparts; [| discriminate].
  injection H as <-.
  destruct (rows_text_parts_pairs _ _ _ _ _ Hparts) as (pairs & Hpairs & ->).
  exists f, rows, pairs. do 3 (split; [easy |]).
  cbn [app]. now rewrite parse_joined, spec_pair_up_flat.
Qed.

Lemma upload_then_parse_witness :
  exists pairs,
    sheet_pairs (option Z) exn sample_notna sample_cell_int sample_sheet pairs
    /\ parse_power_data ascii ascii_digit_value
         (Some (list_ascii_of_string "1 300 3 -450 4 0"))
       = Ok (py_sorted team_power true
               (map (fun p => (Z.abs (fst p), Z.abs (snd p))) pairs)).
Proof.
  destruct (upload_then_parse (list (list (option Z))) (option Z) exn
              (fun _ => "teams.xlsx"%string) (fun f => Done f)
              sample_notna sample_cell_int (fun _ => EmptyString)
              (Some sample_sheet) "1 300 3 -450 4 0" eq_refl)
    as (f & rows & pairs & Hf & Hread & Hsheet & Hparse).
  injection Hf as <-. injection Hread as <-.
  exists pairs. split; [exact Hsheet | exact Hparse].
Defined.

(** X14: the error replies of the upload.  An error reply has status 400 or
    500.  It has status 400 exactly when the request has no file part or the
    file has an empty name.  It has status 500 exactly when a named file
    could not be read as a sheet, or some row with two cells or more, the
    first two not empty, has one of these two cells not convertible to an
    integer: one such cell anywhere in the sheet fails the whole upload. *)
Theorem upload_error_status
    (file cell E : Type) (filename : file -> string)
    (read_excel : file -> tried E (list (list cell)))
    (notna : cell -> bool) (cell_int : cell -> tried E Z)
    (exn_text : E -> string) (excel_file : option file) :
  let reply :=
    api_upload_excel file cell E filename read_excel notna cell_int exn_text
      excel_file in
  (forall status error,
     reply = UploadError status error -> status = 400 \/ status = 500)
  /\ ((exists error, reply = UploadError 400 error) <->
      excel_file = None \/ exists f, excel_file = Some f /\ filename f = EmptyString)
  /\ ((exists error, reply = UploadError 500 error) <->
      exists f,
        excel_file = Some f /\ filename f <> EmptyString
        /\ ((exists e, read_excel f = Failed e)
            \/ exists rows c0 c1 more,
                 read_excel f = Done rows
                 /\ In (c0 :: c1 :: more) rows
                 /\ notna c0 && notna c1 = true
                 /\ ((exists e, cell_int c0 = Failed e)
                     \/ (exists e, cell_int c1 = Failed e)))).
Proof.
  unfold api_upload_excel, processing_error.
  destruct excel_file as [f |]; cbv zeta.
  2: { split; [intros s m H; injection H as <- _; now left |].
       split.
       - split; [now left | intros _; eexists; reflexivity].
       - split; [intros (m & H); discriminate | intros (f & H & _); discriminate]. }
  destruct (String.eqb_spec (filename f) EmptyString) as [Hname | Hname].
  { split; [intros s m H; injection H as <- _; now left |].
    split.
    - split; [intros _; right; now exists f | intros _; eexists; reflexivity].
    - split; [intros (m & H); discriminate |].
      intros (f' & Hf & Hn & _). injection Hf as <-. contradiction. }
  assert (~ (@None file = Some f \/
             exists f', Some f = Some f' /\ filename f' = EmptyString)) as Hno400.
  { intros [H | (f' & Hf & Hn)]; [discriminate |].
    injection Hf as <-. contradiction. }
  destruct (read_excel f) as [rows | e] eqn:Hread.
  2: { split; [intros s m H; injection H as <- _; now right |].
       split.
       - split; [intros (m & H); discriminate | intros H].
         destruct Hno400. destruct H as [H | H]; [discriminate | now right].
       - split; [| intros _; eexists; reflexivity].
         intros _. exists f. repeat (split; [easy |]). left. now exists e. }
  destruct (rows_text_parts cell E notna cell_int [] rows) as [parts | e]
    eqn:Hparts.
  - split; [intros s m H; discriminate |].
    split.
    + split; [intros (m & H); discriminate | intros H].
      destruct Hno400. destruct H as [H | H]; [discriminate | now right].
    + split; [intros (m & H); discriminate |].
      intros (f' & Hf & _ & [(e & He) | Hbad]); injection Hf as <-.
      * congruence.
      * destruct Hbad as (rows' & c0 & c1 & more & Hr & Hin & Hna & Hcell).
        assert (rows' = rows) as -> by congruence.
        destruct (rows_text_parts_bad_cell notna cell_int rows c0 c1 more []
                    Hin Hna Hcell) as (e & He).
        congruence.
  - split; [intros s m H; injection H as <- _; now right |].
    split.
    + split; [intros (m & H); discriminate | intros H].
      destruct Hno400. destruct H as [H | H]; [discriminate | now right].
    + split; [| intros _; eexists; reflexivity].
      intros _. exists f. repeat (split; [easy |]). right.
      destruct (rows_text_parts_failed notna cell_int rows [] e Hparts)
        as (c0 & c1 & more & Hin & Hna & Hcell).
      exists rows, c0, c1, more. repeat (split; [easy |]).
      destruct Hcell as [H | H]; [left | right]; now exists e.
Qed.

(** ** [api_precise_optimization] *)

Lemma lane_total_sorted (l : list team) :
  lane_total (py_sorted team_power true l) = lane_total l.
Proof.
  unfold lane_total. apply py_sum_perm, Permutation_map, py_sorted_perm.
Qed.

(** What a report holds, read off the three exits of
    [run_precise_optimization_logic]. *)
Lemma run_logic_report our el ec er al ac ar :
  let tl := lane_total el + al in
  let tc := lane_total ec + ac in
  let tr := lane_total er + ar in
  let total := lane_total our in
  exists r,
    run_precise_optimization_logic our (enemy_lanes el ec er)
      (lane_targets al ac ar) = Ok r
    /\ title r = report_title
    /\ analysis r
       = [ TargetCalculation
             (lane_targets (lane_total el) (lane_total ec) (lane_total er))
             (lane_targets tl tc tr);
           TotalPowerEvaluation total (tl + tc + tr) (total - (tl + tc + tr)) ]
    /\ forall a,
         best_allocation r = Some a ->
         length our = 60%nat
         /\ find_best_allocation our (lane_targets tl tc tr) = Ok a.
Proof.
  intros tl tc tr total.
  destruct (find_best_allocation_lanes tl tc tr our)
    as (dl & dc & dr & _ & Hrun & _).
  unfold run_precise_optimization_logic.
  rewrite run_logic_targets. cbv zeta.
  rewrite required_total.
  change (margin left (lane_targets al ac ar)) with al.
  change (margin center (lane_targets al ac ar)) with ac.
  change (margin right (lane_targets al ac ar)) with ar.
  change (py_sum (map team_power our)) with total.
  fold tl tc tr.
  destruct (Nat.eqb_spec (length our) 60) as [Hlen | Hlen]; simpl negb;
    cbv iota; [| eexists; repeat split; discriminate].
  destruct (total - (tl + tc + tr) <? 0);
    [eexists; repeat split; discriminate |].
  rewrite Hrun. eexists. split; [reflexivity |].
  cbn [title analysis best_allocation]. repeat (split; [reflexivity |]).
  intros a Ha. injection Ha as <-. auto.
Qed.

Section ApiFacts.
Variable char : Type.
Variable digit_value : char -> option Z.
Context {jvalue : Type}.
Variable json_int : jvalue -> conversion.

Local Abbreviation api := (api_precise_optimization char digit_value jvalue json_int).
Local Abbreviation adv := (advantage_of jvalue json_int).
Local Abbreviation teams_in := (field_teams char digit_value).

Lemma parse_field field :
  parse_power_data char digit_value field
  = Ok (py_sorted team_power true (teams_in field)).
Proof.
  destruct field as [text |]; [apply parse_power_data_spec | reflexivity].
Qed.

(** The reply when the three advantages convert: the report on the parsed
    fields. *)
Lemma api_converted (data : request_data char jvalue) al ac ar :
  adv (left_advantage data) = Converted al ->
  adv (center_advantage data) = Converted ac ->
  adv (right_advantage data) = Converted ar ->
  exists r,
    api data = Reply r
    /\ run_precise_optimization_logic
         (py_sorted team_power true (teams_in (our_power data)))
         (enemy_lanes
            (py_sorted team_power true (teams_in (enemy_left data)))
            (py_sorted team_power true (teams_in (enemy_center data)))
            (py_sorted team_power true (teams_in (enemy_right data))))
         (lane_targets al ac ar)
       = Ok r.
Proof.
  intros Hl Hc Hr.
  destruct (run_logic_report
              (py_sorted team_power true (teams_in (our_power data)))
              (py_sorted team_power true (teams_in (enemy_left data)))
              (py_sorted team_power true (teams_in (enemy_center data)))
              (py_sorted team_power true (teams_in (enemy_right data)))
              al ac ar) as (r & Hrun & _).
  exists r. split; [| exact Hrun].
  unfold api_precise_optimization.
  rewrite !parse_field, Hl, Hc, Hr. cbv zeta.
  unfold enemy_lanes, lane_targets in Hrun. now rewrite Hrun.
Qed.

Lemma api_left_rejected (data : request_data char jvalue) :
  adv (left_advantage data) = Rejected ->
  api data = BadRequest "優勢值必須是有效的數字".
Proof.
  intros H. unfold api_precise_optimization. now rewrite !parse_field, H.
Qed.

Lemma api_center_rejected (data : request_data char jvalue) al :
  adv (left_advantage data) = Converted al ->
  adv (center_advantage data) = Rejected ->
  api data = BadRequest "優勢值必須是有效的數字".
Proof.
  intros Hl H. unfold api_precise_optimization.
  now rewrite !parse_field, Hl, H.
Qed.

Lemma api_right_rejected (data : request_data char jvalue) al ac :
  adv (left_advantage data) = Converted al ->
  adv (center_advantage data) = Converted ac ->
  adv (right_advantage data) = Rejected ->
  api data = BadRequest "優勢值必須是有效的數字".
Proof.
  intros Hl Hc H. unfold api_precise_optimization.
  now rewrite !parse_field, Hl, Hc, H.
Qed.

(** A reply with a report comes from three advantages that convert. *)
Lemma api_reply_inv (data : request_data char jvalue) r :
  api data = Reply r ->
  exists al ac ar,
    adv (left_advantage data) = Converted al
    /\ adv (center_advantage data) = Converted ac
    /\ adv (right_advantage data) = Converted ar.
Proof.
  unfold api_precise_optimization. rewrite !parse_field. cbv zeta.
  destruct (adv (left_advantage data)) as [al | |]; try discriminate.
  destruct (adv (center_advantage data)) as [ac | |]; try discriminate.
  destruct (adv (right_advantage data)) as [ar | |]; try discriminate.
  intros _. now exists al, ac, ar.
Qed.

End ApiFacts.





(** X17: a reply holds an allocation only when the home field holds 120 or
    121 integers, that is 60 pairs.  The three lanes of the allocation then
    hold exactly the 60 teams written in the field, 20 each. *)
Theorem allocation_needs_sixty_pairs
    (char : Type) (digit_value : char -> option Z)
    (jvalue : Type) (json_int : jvalue -> conversion)
    (data : request_data char jvalue) (r : report) (a : allocation) :
  api_precise_optimization char digit_value jvalue json_int data = Reply r ->
  best_allocation r = Some a ->
  let numbers := field_numbers char digit_value (our_power data) in
  (length numbers = 120 \/ length numbers = 121)%nat
  /\ exists rl rc rr,
       lanes_out a = [(left, rl); (center, rc); (right, rr)]
       /\ Permutation (res_teams rl ++ res_teams rc ++ res_teams rr)
            (spec_pair_up numbers)
       /\ count rl = 20%nat /\ count rc = 20%nat /\ count rr = 20%nat.
Proof.
  intros Hreply Hbest numbers.
  destruct (api_reply_inv char digit_value json_int data r Hreply)
    as (al & ac & ar & Hl & Hc & Hr).
  destruct (api_converted char digit_value json_int data al ac ar Hl Hc Hr)
    as (r1 & Hreply1 & Hrun).
  assert (r1 = r) as -> by congruence.
  fold numbers in Hrun.
  change (field_teams char digit_value (our_power data))
    with (spec_pair_up numbers) in Hrun.
  set (our := py_sorted team_power true (spec_pair_up numbers)) in *.
  match type of Hrun with
  | run_precise_optimization_logic _ (enemy_lanes ?l ?c ?r') _ = _ =>
      destruct (run_logic_report our l c r' al ac ar)
        as (r0 & Hrun0 & _ & _ & Halloc);
      set (tl := lane_total l + al) in *;
      set (tc := lane_total c + ac) in *;
      set (tr := lane_total r' + ar) in *
  end.
  assert (r0 = r) as -> by congruence.
  destruct (Halloc a Hbest) as (Hlen & Hfind).
  assert (length (spec_pair_up numbers) = 60%nat) as Hpairs.
  { unfold our in Hlen. now rewrite py_sorted_length in Hlen. }
  split.
  { rewrite spec_pair_up_length in Hpairs.
    pose proof (Nat.div_mod_eq (length numbers) 2) as Hdiv.
    pose proof (Nat.mod_upper_bound (length numbers) 2) as Hmod.
    lia. }
  destruct (find_best_allocation_lanes tl tc tr our)
    as (dl & dc & dr & _ & Hfind' & Ol & Oc & Or & Hperm).
  rewrite finalize_lanes3 in Hfind'.
  assert (a = {| success := is_success (lane_report dl)
                            && is_success (lane_report dc)
                            && is_success (lane_report dr);
                 lanes_out := [ (left, lane_report dl);
                                (center, lane_report dc);
                                (right, lane_report dr) ] |}) as ->
    by congruence.
  assert (60 <= length our)%nat as Hge by lia.
  destruct (lanes_full_at_60 _ _ _ _ _ _ _ Hge Ol Oc Or Hperm)
    as (Nl & Nc & Nr).
  exists (lane_report dl), (lane_report dc), (lane_report dr).
  split; [reflexivity |]. split.
  - cbn [res_teams lane_report]. rewrite !py_sorted_perm, Hperm.
    rewrite firstn_all2 by lia. apply py_sorted_perm.
  - cbn [count lane_report]. auto.
Qed.

Lemma allocation_needs_sixty_pairs_witness :
  exists rl rc rr,
    Permutation (res_teams rl ++ res_teams rc ++ res_teams rr)
      (spec_pair_up (field_numbers ascii ascii_digit_value
                       (our_power sample_request)))
    /\ count rl = 20%nat /\ count rc = 20%nat /\ count rr = 20%nat.
Proof.
  edestruct (allocation_needs_sixty_pairs ascii ascii_digit_value (option Z)
               sample_json_int sample_request)
    as (_ & rl & rc & rr & _ & Hperm & Hcount).
  - vm_compute. reflexivity.
  - reflexivity.
  - exists rl, rc, rr. auto.
Defined.

(** ** Numbers the parser gives *)

Section ParsedNumbers.
Variable char : Type.
Variable digit_value : char -> option Z.
Hypothesis digit_value_nonneg : forall c d, digit_value c = Some d -> 0 <= d.

Lemma spec_number_nonneg run : 0 <= spec_number char digit_value run.
Proof.
  unfold spec_number.
  assert (forall n, 0 <= n ->
            0 <= fold_left
                   (fun n c => 10 * n + match digit_value c with
                                        | Some d => d
                                        | None => 0
                                        end) run n) as H.
  { induction run as [| c run IH]; intros n Hn; [exact Hn |].
    cbn [fold_left]. apply IH.
    destruct (digit_value c) as [d |] eqn:Hd;
      [pose proof (digit_value_nonneg c d Hd) |]; lia. }
  apply H. lia.
Qed.

End ParsedNumbers.

Lemma spec_pair_up_Forall (P : Z -> Prop) (numbers : list Z) :
  Forall P numbers ->
  Forall (fun t => P (team_id t) /\ P (team_power t)) (spec_pair_up numbers).
Proof.
  assert (forall n (l : list Z), (length l < n)%nat -> Forall P l ->
            Forall (fun t => P (team_id t) /\ P (team_power t))
              (spec_pair_up l)) as H.
  { induction n as [| n IH]; intros l Hl HP; [lia |].
    destruct l as [| a [| b l]]; try constructor.
    - inversion HP as [| ? ? Ha HP']. inversion HP' as [| ? ? Hb _].
      split; assumption.
    - apply IH; [simpl in Hl; lia |].
      inversion HP as [| ? ? _ HP']. now inversion HP'. }
  apply (H (S (length numbers))). lia.
Qed.

(** X18: with a digit table whose values are not negative, as the ten values
    0 to 9 of the decimal digits are, every identifier and every power that
    [parse_power_data] returns is not negative, whatever the text: a sign
    before a numeral is dropped. *)
Theorem parsed_numbers_nonneg
    (char : Type) (digit_value : char -> option Z)
    (text_data : option (list char)) (power_list : list team) :
  (forall c d, digit_value c = Some d -> 0 <= d) ->
  parse_power_data char digit_value text_data = Ok power_list ->
  Forall (fun t => 0 <= team_id t /\ 0 <= team_power t) power_list.
Proof.
  intros Hdigits Hparse.
  rewrite parse_field in Hparse. injection Hparse as <-.
  eapply Permutation_Forall; [symmetry; apply py_sorted_perm |].
  apply spec_pair_up_Forall.
  unfold field_numbers. destruct text_data as [text |]; [| constructor].
  apply Forall_map, Forall_forall. intros run _.
  now apply spec_number_nonneg.
Qed.

Lemma parsed_numbers_nonneg_witness :
  Forall (fun t => 0 <= team_id t /\ 0 <= team_power t)
    [(3, 450); (1, 300); (4, 0)].
Proof.
  apply (parsed_numbers_nonneg ascii ascii_digit_value
           (Some (list_ascii_of_string "1 300 3 -450 4 0"))).
  - intros c d H. unfold ascii_digit_value in H.
    destruct c as [[] [] [] [] [] [] [] []]; vm_compute in H;
      try discriminate; injection H as <-; lia.
  - reflexivity.
Defined.
